(** * TakaScene: the flying-item spawner and the per-item animator

    A shallow embedding of the two scene implementations of
    [TakaScene] (React + three.js) and the properties of their
    item-lifecycle logic.

    Modelling conventions.
    - A JavaScript [number] is an exact rational ([Q]).  Every constant
      the scenes compare against (0.5, 1.0, 1.8, 0.001, ...) is written
      with the same decimal literal as in the source.  Results of
      arithmetic are compared with [==] ([Qeq]); values the code copies
      or assigns from a literal are compared with [=].
    - [Math.random()] is an input: a spawn receives the function
      [rand : nat -> Q] giving the successive draws of that call, in
      the evaluation order of the object literal.
    - [Math.sin] and [Math.cos] are parameters of the animator.
    - A [useRef] cell or a [useState] cell is a field of an explicit
      state record; a frame callback is a function from the state
      before the frame to the completion of the callback.
    - [setItems(updater)] and [setTransformed(true)] are applied at
      once. *)

From Stdlib Require Import QArith Qminmax Qround Qabs Lqa Lia List ZArith Bool.
From Stdlib Require Strings.String.
Import ListNotations.

Local Open Scope Q_scope.

(** ** JavaScript values and built-ins *)

Module Js.

(** The result of running a callback: it returns, or it throws the
    [TypeError] of a property access on [undefined] or [null]. *)
Inductive Completion (A : Type) : Type :=
| Normal (a : A)
| Throw.
Arguments Normal {A} a.
Arguments Throw {A}.

Definition bind {A B : Type} (c : Completion A) (k : A -> Completion B)
  : Completion B :=
  match c with
  | Normal a => k a
  | Throw => Throw
  end.

(** [a < b] and [a > b] on numbers. *)
Definition lt (a b : Q) : bool := if Qlt_le_dec a b then true else false.
Definition gt (a b : Q) : bool := if Qlt_le_dec b a then true else false.

Definition Math_min (a b : Q) : Q := Qmin a b.
Definition Math_max (a b : Q) : Q := Qmax a b.
Definition Math_floor (a : Q) : Z := Qfloor a.

(** [arr[i]]: [None] is [undefined], the value of an index out of range. *)
Definition index {A : Type} (arr : list A) (i : Z) : option A :=
  if (i <? 0)%Z then None else nth_error arr (Z.to_nat i).

(** [arr.shift()] drops the first element (nothing on an empty array). *)
Definition shift {A : Type} (arr : list A) : list A := tl arr.

End Js.

Export Js(Completion, Normal, Throw).

(** ** The part of three.js the animator writes to *)

Module Three.

Record Vector3 : Type := mkVector3 { x : Q; y : Q; z : Q }.

(** [v.setScalar(s)] *)
Definition setScalar (s : Q) : Vector3 := mkVector3 s s s.

Record Object3D : Type := mkObject3D {
  scale : Vector3;
  visible : bool
}.

Record Group : Type := mkGroup {
  position : Vector3;
  rotation : Vector3;
  children : list Object3D
}.

Definition withScale (o : Object3D) (s : Q) : Object3D :=
  mkObject3D (setScalar s) (visible o).

Definition withVisible (o : Object3D) (v : bool) : Object3D :=
  mkObject3D (scale o) v.

End Three.

Import Three.

(** ** The scene with glowing primitives
    (capacity test [> 8], spawn interval 1.8, start coordinate -9) *)

Module GlowingScene.

Inductive ComponentType : Type := gpu | ram | motherboard.

Definition COMPONENT_TYPES : list ComponentType := [gpu; ram; motherboard].

Record FlyingItem : Type := mkFlyingItem {
  id : Z;
  initialY : Q;
  initialZ : Q;
  speed : Q;
  targetComponent : option ComponentType;
  rotationSpeed : Vector3
}.

(** [items] is the [useState] cell, [nextId] and [lastSpawnTime] the
    two [useRef] cells of [TakaScene]. *)
Record Scene : Type := mkScene {
  items : list FlyingItem;
  nextId : Z;
  lastSpawnTime : Q
}.

Definition initialScene : Scene := mkScene [] 0%Z 0.

(** The item literal of [spawnItem]; [nextId.current++] yields [newId]. *)
Definition newItem (rand : nat -> Q) (newId : Z) : FlyingItem :=
  {| id := newId;
     initialY := (rand 0%nat - 0.5) * 3;
     initialZ := (rand 1%nat - 0.5) * 3;
     speed := 1.5 + rand 2%nat * 0.5;
     targetComponent :=
       Js.index COMPONENT_TYPES
         (Js.Math_floor
            (rand 3%nat * inject_Z (Z.of_nat (length COMPONENT_TYPES))));
     rotationSpeed :=
       {| x := (rand 4%nat - 0.5) * 0.02;
          y := (rand 5%nat - 0.5) * 0.02;
          z := (rand 6%nat - 0.5) * 0.02 |} |}.

(** The updater passed to [setItems]. *)
Definition spawnUpdater (item : FlyingItem) (prev : list FlyingItem)
  : list FlyingItem :=
  let active := filter (fun _ => true) prev in
  let active := if (8 <? length active)%nat then Js.shift active else active in
  active ++ [item].

Definition spawnItem (rand : nat -> Q) (s : Scene) : Scene :=
  {| items := spawnUpdater (newItem rand (nextId s)) (items s);
     nextId := (nextId s + 1)%Z;
     lastSpawnTime := lastSpawnTime s |}.

(** The frame callback of [TakaScene]. *)
Definition useFrame (elapsedTime : Q) (rand : nat -> Q) (s : Scene) : Scene :=
  if Js.gt (elapsedTime - lastSpawnTime s) 1.8 then
    let s' := spawnItem rand s in
    {| items := items s';
       nextId := nextId s';
       lastSpawnTime := elapsedTime |}
  else s.

(** [n] spawns in a row, one set of draws each. *)
Definition spawnMany (rands : list (nat -> Q)) (s : Scene) : Scene :=
  fold_left (fun acc rand => spawnItem rand acc) rands s.

(** A run of frames: the clock value and the draws of each frame. *)
Definition frames (ticks : list (Q * (nat -> Q))) (s : Scene) : Scene :=
  fold_left (fun acc t => useFrame (fst t) (snd t) acc) ticks s.

(** *** ItemAnimator *)

(** [startTime] and [groupRef] are the two [useRef] cells; [None] is
    [null]: no birth time yet, render group not mounted. *)
Record Animator : Type := mkAnimator {
  startTime : option Q;
  groupRef : option Group
}.

Definition unborn : Animator := mkAnimator None None.

(** [x = -9 + timeAlive * data.speed] *)
Definition horizontal (data : FlyingItem) (timeAlive : Q) : Q :=
  -9 + timeAlive * speed data.

(** The blend factor computed from the horizontal position. *)
Definition blend (x : Q) : Q :=
  let beamCenter := 0 in
  let transitionWidth := 1.0 in
  if Js.lt x (beamCenter - transitionWidth / 2) then 0
  else if Js.gt x (beamCenter + transitionWidth / 2) then 1
  else (x - (beamCenter - transitionWidth / 2)) / transitionWidth.

(** The two children are rescaled only when both exist. *)
Definition applyBlend (b : Q) (children : list Object3D) : list Object3D :=
  match Js.index children 0, Js.index children 1, children with
  | Some takaGroup, Some compGroup, _ :: _ :: rest =>
      let takaScale := 1 - b in
      let compScale := b in
      withScale takaGroup (if Js.gt takaScale 0 then takaScale else 0.001)
      :: withScale compGroup (if Js.gt compScale 0 then compScale else 0.001)
      :: rest
  | _, _, _ => children
  end.

(** [startTime.current] after the first statement of the callback:
    the clock value is stored only when the cell is still [null]. *)
Definition birthTime (a : Animator) (elapsedTime : Q) : Q :=
  match startTime a with
  | None => elapsedTime
  | Some s => s
  end.

Section Animation.

Variables Math_sin Math_cos : Q -> Q.

(** The frame callback of [ItemAnimator]. *)
Definition animate (data : FlyingItem) (elapsedTime : Q) (a : Animator)
  : Completion Animator :=
  let start := birthTime a elapsedTime in
  match groupRef a with
  | None => Normal {| startTime := Some start; groupRef := None |}
  | Some g =>
      let timeAlive := elapsedTime - start in
      let x := horizontal data timeAlive in
      let position' :=
        {| x := x;
           y := initialY data
                + Math_sin (timeAlive + inject_Z (id data)) * 0.5;
           z := initialZ data
                + Math_cos (timeAlive * 0.8 + inject_Z (id data)) * 0.5 |} in
      let rotation' :=
        {| x := Three.x (rotation g) + Three.x (rotationSpeed data);
           y := Three.y (rotation g) + Three.y (rotationSpeed data);
           z := Three.z (rotation g) + Three.z (rotationSpeed data) |} in
      Normal
        {| startTime := Some start;
           groupRef :=
             Some {| position := position';
                     rotation := rotation';
                     children := applyBlend (blend x) (children g) |} |}
  end.

(** What happens to one animator between and during frames: the
    renderer mounts its group, or a frame fires. *)
Inductive Event : Type :=
| Mount (g : Group)
| Frame (elapsedTime : Q).

Definition step (data : FlyingItem) (a : Animator) (ev : Event)
  : Completion Animator :=
  match ev with
  | Mount g => Normal {| startTime := startTime a; groupRef := Some g |}
  | Frame elapsedTime => animate data elapsedTime a
  end.

Fixpoint run (data : FlyingItem) (evs : list Event) (a : Animator)
  : Completion Animator :=
  match evs with
  | [] => Normal a
  | ev :: evs' => Js.bind (step data a ev) (run data evs')
  end.

End Animation.

(** The group as the JSX creates it: the token child at its default
    scale, the component child at scale 0.001. *)
Definition mountedGroup : Group :=
  {| position := mkVector3 0 0 0;
     rotation := mkVector3 0 0 0;
     children := [ mkObject3D (setScalar 1) true;
                   mkObject3D (setScalar 0.001) true ] |}.

(** The scale vector of child [i] of the mounted group, if any. *)
Definition childScale (i : Z) (a : Animator) : option Vector3 :=
  match groupRef a with
  | None => None
  | Some g => option_map scale (Js.index (children g) i)
  end.

End GlowingScene.

(** ** The scene with GLTF models
    (capacity test [> 12], spawn interval 1.2, start coordinate -10) *)

Module GltfScene.

Inductive ComponentType : Type := taka | gpu | ram | cpu | motherboard.

Definition COMPONENT_TYPES : list ComponentType :=
  [taka; taka; gpu; ram; cpu; motherboard].

Record FlyingItem : Type := mkFlyingItem {
  id : Z;
  initialY : Q;
  initialZ : Q;
  speed : Q;
  type : option ComponentType;
  rotationSpeed : Vector3;
  scaleVar : Q
}.

Record Scene : Type := mkScene {
  items : list FlyingItem;
  nextId : Z;
  lastSpawnTime : Q
}.

Definition initialScene : Scene := mkScene [] 0%Z 0.

(** The index expression of the [type] field:
    [Math.floor(Math.random() * (COMPONENT_TYPES.length - 2)) + 2]. *)
Definition typeIndex (r : Q) : Z :=
  (Js.Math_floor
     (r * inject_Z (Z.of_nat (length COMPONENT_TYPES) - 2)) + 2)%Z.

Definition newItem (rand : nat -> Q) (newId : Z) : FlyingItem :=
  {| id := newId;
     initialY := (rand 0%nat - 0.5) * 4;
     initialZ := (rand 1%nat - 0.5) * 4;
     speed := 1.0 + rand 2%nat * 0.5;
     type := Js.index COMPONENT_TYPES (typeIndex (rand 3%nat));
     rotationSpeed :=
       {| x := (rand 4%nat - 0.5) * 0.02;
          y := (rand 5%nat - 0.5) * 0.02;
          z := (rand 6%nat - 0.5) * 0.02 |};
     scaleVar := 0.8 + rand 7%nat * 0.4 |}.

Definition spawnUpdater (item : FlyingItem) (prev : list FlyingItem)
  : list FlyingItem :=
  let active := filter (fun _ => true) prev in
  let active := if (12 <? length active)%nat then Js.shift active else active in
  active ++ [item].

Definition spawnItem (rand : nat -> Q) (s : Scene) : Scene :=
  {| items := spawnUpdater (newItem rand (nextId s)) (items s);
     nextId := (nextId s + 1)%Z;
     lastSpawnTime := lastSpawnTime s |}.

Definition useFrame (elapsedTime : Q) (rand : nat -> Q) (s : Scene) : Scene :=
  if Js.gt (elapsedTime - lastSpawnTime s) 1.2 then
    let s' := spawnItem rand s in
    {| items := items s';
       nextId := nextId s';
       lastSpawnTime := elapsedTime |}
  else s.

Definition frames (ticks : list (Q * (nat -> Q))) (s : Scene) : Scene :=
  fold_left (fun acc t => useFrame (fst t) (snd t) acc) ticks s.

(** The component child of the JSX: one conditional per tag, the last
    one being the fallback for the token tag. *)
Inductive Model : Type :=
| GLTF_GPU | GLTF_RAM | GLTF_CPU | GLTF_Motherboard | FallbackGPU.

Definition typeIs (t : option ComponentType) (tag : ComponentType) : bool :=
  match t, tag with
  | Some taka, taka | Some gpu, gpu | Some ram, ram
  | Some cpu, cpu | Some motherboard, motherboard => true
  | _, _ => false
  end.

Definition componentChild (data : FlyingItem) : list Model :=
  (if typeIs (type data) gpu then [GLTF_GPU] else [])
  ++ (if typeIs (type data) ram then [GLTF_RAM] else [])
  ++ (if typeIs (type data) cpu then [GLTF_CPU] else [])
  ++ (if typeIs (type data) motherboard then [GLTF_Motherboard] else [])
  ++ (if typeIs (type data) taka then [FallbackGPU] else []).

(** The tag is one of the four hardware components. *)
Definition isHardware (t : option ComponentType) : bool :=
  typeIs t gpu || typeIs t ram || typeIs t cpu || typeIs t motherboard.

(** *** ItemAnimator *)

Record Animator : Type := mkAnimator {
  startTime : option Q;
  groupRef : option Group;
  transformed : bool
}.

Definition unborn : Animator := mkAnimator None None false.

(** [x = -10 + timeAlive * data.speed] *)
Definition horizontal (data : FlyingItem) (timeAlive : Q) : Q :=
  -10 + timeAlive * speed data.

(** The scale and visibility branch.  The two children are used
    without a test: writing to a missing child throws. *)
Definition showHide (data : FlyingItem) (x : Q) (children : list Object3D)
  : Completion (list Object3D) :=
  match children with
  | takaGroup :: compGroup :: rest =>
      if Js.lt x (-0.5) then
        Normal (withScale (withVisible takaGroup true) 1
                :: withVisible compGroup false
                :: rest)
      else if Js.gt x 0.5 then
        let scaleUp := Js.Math_min 1 ((x - 0.5) * 2) in
        Normal (withVisible takaGroup false
                :: withScale (withVisible compGroup true)
                     (scaleUp * scaleVar data)
                :: rest)
      else
        let t := x + 0.5 in
        let takaScale := Js.Math_max 0 (1 - t * 2) in
        let takaGroup' :=
          withVisible (withScale takaGroup takaScale)
            (Js.gt takaScale 0.01) in
        if Js.gt x 0 then
          let compScale := Js.Math_min 1 (x * 2) in
          Normal (takaGroup'
                  :: withVisible
                       (withScale compGroup (compScale * scaleVar data)) true
                  :: rest)
        else
          Normal (takaGroup' :: withVisible compGroup false :: rest)
  | _ => Throw
  end.

Definition birthTime (a : Animator) (elapsedTime : Q) : Q :=
  match startTime a with
  | None => elapsedTime
  | Some s => s
  end.

Section Animation.

Variables Math_sin Math_cos : Q -> Q.

Definition animate (data : FlyingItem) (elapsedTime : Q) (a : Animator)
  : Completion Animator :=
  let start := birthTime a elapsedTime in
  match groupRef a with
  | None =>
      Normal {| startTime := Some start;
                groupRef := None;
                transformed := transformed a |}
  | Some g =>
      let timeAlive := elapsedTime - start in
      let x := horizontal data timeAlive in
      let position' :=
        {| x := x;
           y := initialY data
                + Math_sin (timeAlive * 0.5 + inject_Z (id data)) * 0.3;
           z := initialZ data
                + Math_cos (timeAlive * 0.3 + inject_Z (id data)) * 0.3 |} in
      let rotation' :=
        {| x := Three.x (rotation g) + Three.x (rotationSpeed data);
           y := Three.y (rotation g) + Three.y (rotationSpeed data);
           z := Three.z (rotation g) + Three.z (rotationSpeed data) |} in
      let transformed' :=
        if Js.gt x 0 && negb (transformed a) then true else transformed a in
      Js.bind (showHide data x (children g)) (fun children' =>
        Normal
          {| startTime := Some start;
             groupRef :=
               Some {| position := position';
                       rotation := rotation';
                       children := children' |};
             transformed := transformed' |})
  end.

End Animation.

(** One animator between and during frames, as in the other scene. *)
Inductive Event : Type :=
| Mount (g : Group)
| Frame (elapsedTime : Q).

Definition step (Math_sin Math_cos : Q -> Q) (data : FlyingItem)
  (a : Animator) (ev : Event) : Completion Animator :=
  match ev with
  | Mount g =>
      Normal {| startTime := startTime a;
                groupRef := Some g;
                transformed := transformed a |}
  | Frame elapsedTime => animate Math_sin Math_cos data elapsedTime a
  end.

Fixpoint run (Math_sin Math_cos : Q -> Q) (data : FlyingItem)
  (evs : list Event) (a : Animator) : Completion Animator :=
  match evs with
  | [] => Normal a
  | ev :: evs' =>
      Js.bind (step Math_sin Math_cos data a ev)
        (run Math_sin Math_cos data evs')
  end.

End GltfScene.

(** ** The ambient primitives of [AnimatedComponents] *)

Module AnimatedComponents.

(** The [position] prop: a triple, of which the callbacks read
    [position[1]]. *)
Definition Triple : Type := (Q * Q * Q)%type.

Definition second (p : Triple) : Q := snd (fst p).

Section Frames.

Variable Math_sin : Q -> Q.

(** [EnergyBeam]: the frame callback writes [scale.x] of the inner glow
    mesh when it is mounted. *)
Definition energyBeamFrame (elapsedTime : Q) (glowRef : option Object3D)
  : option Object3D :=
  match glowRef with
  | Some glow =>
      let pulse := Math_sin (elapsedTime * 3) * 0.2 + 1 in
      Some {| scale := {| x := pulse;
                          y := Three.y (scale glow);
                          z := Three.z (scale glow) |};
              visible := visible glow |}
  | None => None
  end.



(** [GlowingRAM] *)
Definition glowingRAMFrame (position : Triple) (elapsedTime : Q)
  (groupRef : option Group) : option Group :=
  match groupRef with
  | Some g =>
      Some {| Three.position :=
                {| x := Three.x (Three.position g);
                   y := second position
                        + Math_sin (elapsedTime * 0.7 + 1) * 0.08;
                   z := Three.z (Three.position g) |};
              rotation := {| x := Three.x (rotation g);
                             y := Three.y (rotation g);
                             z := Math_sin (elapsedTime * 0.5) * 0.05 |};
              children := children g |}
  | None => None
  end.

(** [GlowingMotherboard] *)
Definition glowingMotherboardFrame (position : Triple) (elapsedTime : Q)
  (groupRef : option Group) : option Group :=
  match groupRef with
  | Some g =>
      Some {| Three.position :=
                {| x := Three.x (Three.position g);
                   y := second position
                        + Math_sin (elapsedTime * 0.6 + 2) * 0.06;
                   z := Three.z (Three.position g) |};
              rotation := {| x := -0.3 + Math_sin (elapsedTime * 0.4) * 0.03;
                             y := Three.y (rotation g);
                             z := Three.z (rotation g) |};
              children := children g |}
  | None => None
  end.

End Frames.

(** A run of frames of one primitive, given its callback. *)
Definition frames {S : Type} (callback : Q -> S -> S) (clocks : list Q)
  (s : S) : S :=
  fold_left (fun acc elapsedTime => callback elapsedTime acc) clocks s.

End AnimatedComponents.

(** ** [EmberParticles] *)

Module EmberParticles.

(** [arr[k] = v] on an array of fixed length: an index out of range
    writes nothing. *)
Fixpoint setAt (arr : list Q) (k : nat) (v : Q) : list Q :=
  match arr, k with
  | [], _ => []
  | _ :: rest, O => v :: rest
  | a :: rest, S k' => a :: setAt rest k' v
  end.

(** The cells [i * 3], [i * 3 + 1], [i * 3 + 2] of a flat array;
    [None] when one of them is out of range ([undefined]). *)
Definition triple (arr : list Q) (i : nat) : option (Q * Q * Q) :=
  match nth_error arr (i * 3), nth_error arr (i * 3 + 1),
        nth_error arr (i * 3 + 2) with
  | Some a, Some b, Some c => Some (a, b, c)
  | _, _, _ => None
  end.

Definition setTriple (arr : list Q) (i : nat) (a b c : Q) : list Q :=
  setAt (setAt (setAt arr (i * 3) a) (i * 3 + 1) b) (i * 3 + 2) c.

(** The memoised [{ positions, velocities }] and the [needsUpdate] flag
    of the geometry attribute, which holds the same [positions] array. *)
Record Embers : Type := mkEmbers {
  positions : list Q;
  velocities : list Q;
  needsUpdate : bool
}.

(** What float32 rounding is assumed to do: it is monotone and keeps
    the integers up to 2^24. *)
Definition float32_like (fround : Q -> Q) : Prop :=
  (forall a b, a <= b -> fround a <= fround b)
  /\ (forall n : Z, (Z.abs n <= 16777216)%Z ->
      fround (inject_Z n) == inject_Z n).

(** Cell [i * 3] and cell [i * 3 + 1] of particle [i] are inside the
    region the frame callback keeps particles in. *)
Definition inBox (arr : list Q) (i : nat) : Prop :=
  exists x y z,
    triple arr i = Some (x, y, z) /\ y <= 3 /\ -2 <= x /\ x <= 2.

Section Float32.

(** [fround] is the value a [Float32Array] cell holds after a number is
    stored in it; [random] gives the successive values of
    [Math.random()], and a cursor counts the draws made so far. *)
Variable fround : Q -> Q.
Variable random : nat -> Q.

(** One iteration of the loop of the [useMemo] initialiser. *)
Definition initStep (acc : list Q * list Q * nat) (i : nat)
  : list Q * list Q * nat :=
  let '(positions, velocities, k) := acc in
  let positions :=
    setAt positions (i * 3) (fround ((random k - 0.5) * 0.5)) in
  let positions :=
    setAt positions (i * 3 + 1) (fround ((random (k + 1) - 0.5) * 4)) in
  let positions :=
    setAt positions (i * 3 + 2) (fround ((random (k + 2) - 0.5) * 0.5)) in
  let velocities :=
    velocities ++ [ (random (k + 3) - 0.5) * 0.02;
                    random (k + 4) * 0.03 + 0.01;
                    (random (k + 5) - 0.5) * 0.02 ] in
  (positions, velocities, (k + 6)%nat).

(** The initialiser: [new Float32Array(count * 3)] is all zeros. *)
Definition init (count : nat) (k : nat) : Embers * nat :=
  let '(positions, velocities, k') :=
    fold_left initStep (seq 0 count) (repeat 0 (count * 3), [], k) in
  (mkEmbers positions velocities false, k').

(** One iteration of the loop of the frame callback.  [None]: a cell
    that is read does not exist, the sum is not a number. *)
Definition frameStep (velocities : list Q) (acc : option (list Q * nat))
  (i : nat) : option (list Q * nat) :=
  match acc with
  | None => None
  | Some (positions, k) =>
      match triple positions i, triple velocities i with
      | Some (px, py, pz), Some (vx, vy, vz) =>
          let x' := fround (px + vx) in
          let y' := fround (py + vy) in
          let z' := fround (pz + vz) in
          let positions := setTriple positions i x' y' z' in
          if Js.gt y' 3 || Js.gt (Qabs x') 2 then
            Some (setTriple positions i
                    (fround ((random k - 0.5) * 0.3))
                    (fround ((random (k + 1) - 0.5) * 2))
                    (fround ((random (k + 2) - 0.5) * 0.3)),
                  (k + 3)%nat)
          else Some (positions, k)
      | _, _ => None
      end
  end.

(** The two outcomes of an iteration for one particle, used to state
    what a frame does: the particle moved by its velocity, or it was
    put back near the beam with the three draws from [j] on. *)
Definition moved (p v : Q * Q * Q) : Q * Q * Q :=
  let '(px, py, pz) := p in
  let '(vx, vy, vz) := v in
  (fround (px + vx), fround (py + vy), fround (pz + vz)).

Definition respawned (j : nat) : Q * Q * Q :=
  (fround ((random j - 0.5) * 0.3),
   fround ((random (j + 1) - 0.5) * 2),
   fround ((random (j + 2) - 0.5) * 0.3)).

(** The reset test on a particle: too high, or too far sideways. *)
Definition leftRegion (q : Q * Q * Q) : Prop :=
  let '(x, y, _) := q in 3 < y \/ 2 < Qabs x.

(** The frame callback; [mounted] tells whether [particlesRef.current]
    is set. *)
Definition frame (count : nat) (mounted : bool) (e : Embers) (k : nat)
  : option (Embers * nat) :=
  if mounted then
    match fold_left (frameStep (velocities e)) (seq 0 count)
            (Some (positions e, k)) with
    | Some (positions', k') =>
        Some (mkEmbers positions' (velocities e) true, k')
    | None => None
    end
  else Some (e, k).

(** [n] mounted frames in a row. *)
Fixpoint frames (count : nat) (n : nat) (e : Embers) (k : nat)
  : option (Embers * nat) :=
  match n with
  | O => Some (e, k)
  | S n' =>
      match frame count true e k with
      | Some (e', k') => frames count n' e' k'
      | None => None
      end
  end.

End Float32.

End EmberParticles.


(** ** [Navbar]

    The parts of the markup that depend on the current pathname: the
    class of the [nav] element and the two [NavLink]s.  The brand link
    and the call-to-action link are the same on every page. *)

Module Navbar.

Import String.
Local Open Scope string_scope.

(** The bar under a link: the animated underline of the active link,
    or the bar that only shows on hover. *)
Inductive Decoration : Type := Underline | HoverBar.

Record NavLinkView : Type := mkNavLinkView {
  href : string;
  label : string;
  className : string;
  decorations : list Decoration
}.

Definition NavLink (href label : string) (active : bool) : NavLinkView :=
  {| href := href;
     label := label;
     className :=
       "text-sm font-medium transition-colors relative group "
       ++ (if active then "text-white"
           else "text-neutral-400 hover:text-white");
     decorations :=
       ((if active then [Underline] else [])
        ++ (if negb active then [HoverBar] else []))%list |}.

Record NavbarView : Type := mkNavbarView {
  navClassName : string;
  links : list NavLinkView
}.

Definition navBase : string :=
  "fixed top-0 left-0 right-0 z-50 flex items-center justify-between px-6 md:px-8 py-6 transition-all duration-300 ".

Definition Navbar (pathname : string) : NavbarView :=
  let isHome := pathname =? "/" in
  {| navClassName :=
       navBase
       ++ (if isHome then "bg-transparent"
           else "bg-black/80 backdrop-blur-md border-b border-white/5");
     links :=
       [ NavLink "/build" "PC Builder" (pathname =? "/build");
         NavLink "/components" "Components" (pathname =? "/components") ] |}.

End Navbar.

(** * Properties *)

Import GlowingScene.

(** ** Spawner *)

Lemma filter_keep_all : forall (A : Type) (l : list A),
  filter (fun _ => true) l = l.
Proof.
  induction l as [|a l IH]; simpl; [reflexivity | now rewrite IH].
Qed.

Lemma spawnUpdater_below : forall item prev,
  (length prev <= 8)%nat -> spawnUpdater item prev = prev ++ [item].
Proof.
  intros item prev H. unfold spawnUpdater. rewrite filter_keep_all.
  destruct (Nat.ltb_spec 8 (length prev)); [lia | reflexivity].
Qed.

Lemma spawnUpdater_above : forall item prev,
  (8 < length prev)%nat -> spawnUpdater item prev = tl prev ++ [item].
Proof.
  intros item prev H. unfold spawnUpdater. rewrite filter_keep_all.
  destruct (Nat.ltb_spec 8 (length prev)); [reflexivity | lia].
Qed.

Lemma length_tl : forall (A : Type) (l : list A),
  length (tl l) = (length l - 1)%nat.
Proof. destruct l; simpl; lia. Qed.

Lemma map_tl_comm : forall (A B : Type) (f : A -> B) (l : list A),
  map f (tl l) = tl (map f l).
Proof. destruct l; reflexivity. Qed.

Lemma tl_seq_snoc : forall a m,
  tl (seq a (S m)) ++ [(a + S m)%nat] = seq (S a) (S m).
Proof.
  intros a m. simpl tl. rewrite (seq_S m (S a)). f_equal. f_equal. lia.
Qed.

Lemma spawnUpdater_length : forall item prev,
  length (spawnUpdater item prev) =
  if (8 <? length prev)%nat then length prev else S (length prev).
Proof.
  intros item prev. destruct (Nat.ltb_spec 8 (length prev)) as [H|H].
  - rewrite spawnUpdater_above by exact H.
    rewrite length_app, length_tl. simpl. lia.
  - rewrite spawnUpdater_below by exact H.
    rewrite length_app. simpl. lia.
Qed.

Lemma spawnMany_snoc : forall rands rand s,
  spawnMany (rands ++ [rand]) s = spawnItem rand (spawnMany rands s).
Proof.
  intros. unfold spawnMany. now rewrite fold_left_app.
Qed.

(** The ids held after [n] spawns from the empty scene are the last
    [min n 9] of [0 .. n-1], oldest first. *)
Lemma spawnMany_ids : forall rands,
  let n := length rands in
  let s := spawnMany rands initialScene in
  nextId s = Z.of_nat n
  /\ map id (items s) = map Z.of_nat (seq (n - Nat.min n 9) (Nat.min n 9)).
Proof.
  induction rands as [|rand rands IH] using rev_ind.
  - split; reflexivity.
  - cbv zeta in *. destruct IH as [Hn Hids].
    rewrite spawnMany_snoc, length_app. simpl length.
    set (n := length rands) in *. set (s := spawnMany rands initialScene) in *.
    assert (Hlen : length (items s) = Nat.min n 9).
    { rewrite <- (length_map id), Hids, length_map, length_seq. reflexivity. }
    split.
    + simpl. rewrite Hn. lia.
    + simpl items. destruct (Nat.ltb_spec 8 (length (items s))) as [H|H].
      * rewrite spawnUpdater_above by exact H.
        rewrite map_app, map_tl_comm, Hids. simpl map at 3. rewrite Hn.
        assert (Hm : Nat.min n 9 = 9%nat) by lia.
        assert (Hm' : Nat.min (n + 1) 9 = 9%nat) by lia.
        rewrite Hm, Hm'.
        replace (n + 1 - 9)%nat with (S (n - 9)) by lia.
        change (map id [newItem rand (Z.of_nat n)]) with [Z.of_nat n].
        rewrite <- (tl_seq_snoc (n - 9) 8), map_app, map_tl_comm.
        change (map Z.of_nat [(n - 9 + 9)%nat]) with [Z.of_nat (n - 9 + 9)].
        do 3 f_equal. lia.
      * rewrite spawnUpdater_below by exact H.
        rewrite map_app, Hids. rewrite Hn.
        change (map id [newItem rand (Z.of_nat n)]) with [Z.of_nat n].
        assert (Hm : Nat.min n 9 = n) by lia.
        assert (Hm' : Nat.min (n + 1) 9 = (n + 1)%nat) by lia.
        rewrite Hm, Hm'.
        replace (n - n)%nat with 0%nat by lia.
        replace (n + 1 - (n + 1))%nat with 0%nat by lia.
        rewrite seq_app, map_app. reflexivity.
Qed.

Lemma spawnMany_length : forall rands,
  length (items (spawnMany rands initialScene)) = Nat.min (length rands) 9.
Proof.
  intros rands. destruct (spawnMany_ids rands) as [_ H].
  rewrite <- (length_map id), H, length_map, length_seq. reflexivity.
Qed.

Lemma useFrame_cases : forall elapsedTime rand s,
  (~ 1.8 < elapsedTime - lastSpawnTime s /\ useFrame elapsedTime rand s = s)
  \/ (1.8 < elapsedTime - lastSpawnTime s /\
      useFrame elapsedTime rand s =
      {| items := spawnUpdater (newItem rand (nextId s)) (items s);
         nextId := (nextId s + 1)%Z;
         lastSpawnTime := elapsedTime |}).
Proof.
  intros elapsedTime rand s. unfold useFrame, Js.gt.
  destruct (Qlt_le_dec 1.8 (elapsedTime - lastSpawnTime s)) as [H|H].
  - right. split; [exact H | reflexivity].
  - left. split; [lra | reflexivity].
Qed.

(** No run of frames from the empty scene holds more than nine items. *)
Lemma frames_size_bound : forall ticks,
  (length (items (frames ticks initialScene)) <= 9)%nat.
Proof.
  induction ticks as [|t ticks IH] using rev_ind.
  - simpl. lia.
  - unfold frames in *. rewrite fold_left_app. simpl.
    set (s := fold_left _ ticks initialScene) in *.
    destruct (useFrame_cases (fst t) (snd t) s) as [[_ E]|[_ E]]; rewrite E.
    + exact IH.
    + simpl. rewrite spawnUpdater_length.
      destruct (Nat.ltb_spec 8 (length (items s))); lia.
Qed.

(** C1 (as amended).  The capacity test of [spawnItem] is
    [active.length > 8], made before the append: a collection of at most
    nine items has [min (previous_size + 1) 9] items after a spawn, so
    nine is the bound that is never exceeded; the single oldest item is
    dropped exactly when the collection already held more than eight, and
    nothing is dropped otherwise. *)
Theorem spawn_size_min_nine : forall rand s,
  (length (items s) <= 9)%nat ->
  let s' := spawnItem rand s in
  length (items s') = Nat.min (length (items s) + 1) 9
  /\ (length (items s') <= 9)%nat
  /\ ((8 < length (items s))%nat ->
      items s' = tl (items s) ++ [newItem rand (nextId s)])
  /\ ((length (items s) <= 8)%nat ->
      items s' = items s ++ [newItem rand (nextId s)]).
Proof.
  intros rand s Hle. cbv zeta. simpl items.
  rewrite spawnUpdater_length.
  repeat split.
  - destruct (Nat.ltb_spec 8 (length (items s))); lia.
  - destruct (Nat.ltb_spec 8 (length (items s))); lia.
  - intros H. now apply spawnUpdater_above.
  - intros H. now apply spawnUpdater_below.
Qed.

Lemma spawn_size_min_nine_witness :
  let s := spawnMany (repeat (fun _ => 0) 9) initialScene in
  let s' := spawnItem (fun _ => 0.5) s in
  (length (items s) <= 9)%nat
  /\ length (items s') = Nat.min (length (items s) + 1) 9.
Proof.
  cbv zeta. split.
  - vm_compute. lia.
  - apply (spawn_size_min_nine (fun _ => 0.5)
             (spawnMany (repeat (fun _ => 0) 9) initialScene)).
    vm_compute. lia.
Defined.

(** C1, the claim as written with K = 8, fails: a spawn into a
    collection of eight items evicts nothing and leaves nine. *)
Lemma spawn_size_exceeds_eight :
  let s := spawnMany (repeat (fun _ => 0) 8) initialScene in
  let s' := spawnItem (fun _ => 0) s in
  length (items s) = 8%nat
  /\ length (items s') = 9%nat
  /\ length (items s') <> Nat.min (length (items s) + 1) 8
  /\ (8 < length (items s'))%nat
  /\ map id (items s') = [0; 1; 2; 3; 4; 5; 6; 7; 8]%Z.
Proof.
  vm_compute. repeat split; try lia; try reflexivity.
Qed.

(** C2 (as amended).  Eviction is first-in first-out with nine places:
    once ten or more items have been spawned (ids 0..9 and beyond) with
    no other removal, the collection no longer contains id 0. *)
Theorem fifo_evicts_first_id : forall rands,
  (9 < length rands)%nat ->
  ~ In 0%Z (map id (items (spawnMany rands initialScene))).
Proof.
  intros rands Hlen Hin.
  destruct (spawnMany_ids rands) as [_ Hids]. cbv zeta in Hids.
  rewrite Hids in Hin. apply in_map_iff in Hin.
  destruct Hin as [k [Hk Hin]]. apply in_seq in Hin. lia.
Qed.

Lemma fifo_evicts_first_id_witness :
  let rands := repeat (fun _ : nat => 0.25) 10 in
  (9 < length rands)%nat
  /\ ~ In 0%Z (map id (items (spawnMany rands initialScene))).
Proof.
  cbv zeta. split.
  - vm_compute. lia.
  - apply (fifo_evicts_first_id (repeat (fun _ : nat => 0.25) 10)).
    vm_compute. lia.
Defined.

(** C2, the claim as written with K = 8, fails: after the ninth spawn
    (ids 0..8) the collection still contains id 0. *)
Lemma fifo_keeps_first_id_after_nine :
  let s := spawnMany (repeat (fun _ => 0) (8 + 1)) initialScene in
  map id (items s) = [0; 1; 2; 3; 4; 5; 6; 7; 8]%Z
  /\ In 0%Z (map id (items s)).
Proof.
  vm_compute. split; [reflexivity | now left].
Qed.

(** C6.  A frame creates at most one item, whatever the time since the
    last spawn: either the interval test fails and the scene is
    unchanged, or exactly one id is consumed, exactly one item is
    appended (after the capacity test), and the clock value of this
    frame is recorded as the last spawn time. *)
Theorem frame_spawns_at_most_once : forall elapsedTime rand s,
  let s' := useFrame elapsedTime rand s in
  (~ 1.8 < elapsedTime - lastSpawnTime s /\ s' = s)
  \/ (1.8 < elapsedTime - lastSpawnTime s
      /\ nextId s' = (nextId s + 1)%Z
      /\ items s' =
           (if (8 <? length (items s))%nat then tl (items s) else items s)
           ++ [newItem rand (nextId s)]
      /\ lastSpawnTime s' = elapsedTime).
Proof.
  intros elapsedTime rand s. cbv zeta.
  destruct (useFrame_cases elapsedTime rand s) as [[H E]|[H E]]; rewrite E.
  - left. split; [exact H | reflexivity].
  - right. simpl. repeat split; try exact H.
    unfold spawnUpdater. now rewrite filter_keep_all.
Qed.

(** A frame that comes a hundred intervals late still spawns once. *)
Example late_frame_spawns_once :
  let s' := useFrame 180 (fun _ => 0) initialScene in
  map id (items s') = [0%Z] /\ nextId s' = 1%Z /\ lastSpawnTime s' = 180.
Proof. vm_compute. repeat split. Qed.

(** ** Blend factor *)

Lemma blend_cases : forall x,
  (x < -0.5 /\ blend x = 0)
  \/ (0.5 < x /\ blend x = 1)
  \/ (-0.5 <= x /\ x <= 0.5 /\ blend x == x + 0.5).
Proof.
  intros x. unfold blend, Js.lt, Js.gt. cbv zeta.
  assert (El : 0 - 1.0 / 2 == -0.5) by reflexivity.
  assert (Er : 0 + 1.0 / 2 == 0.5) by reflexivity.
  destruct (Qlt_le_dec x (0 - 1.0 / 2)) as [H1|H1].
  - left. split; [lra | reflexivity].
  - destruct (Qlt_le_dec (0 + 1.0 / 2) x) as [H2|H2].
    + right; left. split; [lra | reflexivity].
    + right; right. repeat split; try lra.
      rewrite El. field.
Qed.

Lemma blend_left : forall x, x < -0.5 -> blend x = 0.
Proof.
  intros x H. destruct (blend_cases x) as [[_ E]|[[H' _]|[H' _]]];
    [exact E | lra | lra].
Qed.

Lemma blend_right : forall x, 0.5 < x -> blend x = 1.
Proof.
  intros x H. destruct (blend_cases x) as [[H' _]|[[_ E]|[_ [H' _]]]];
    [lra | exact E | lra].
Qed.

Lemma blend_zone : forall x, -0.5 <= x -> x <= 0.5 -> blend x == x + 0.5.
Proof.
  intros x Hl Hr.
  destruct (blend_cases x) as [[H' _]|[[H' _]|[_ [_ E]]]];
    [lra | lra | exact E].
Qed.

Lemma blend_range : forall x, 0 <= blend x /\ blend x <= 1.
Proof.
  intros x. destruct (blend_cases x) as [[_ E]|[[_ E]|[Hl [Hr E]]]];
    rewrite E; lra.
Qed.

#[export] Instance blend_comp : Proper (Qeq ==> Qeq) blend.
Proof.
  intros x y Hxy.
  destruct (blend_cases x) as [[Hx Ex]|[[Hx Ex]|[Hxl [Hxr Ex]]]];
  destruct (blend_cases y) as [[Hy Ey]|[[Hy Ey]|[Hyl [Hyr Ey]]]];
  rewrite Ex, Ey; lra.
Qed.

(** C3.  The blend factor lies in [0, 1] at every position and does not
    decrease when the horizontal position increases. *)
Theorem blend_bounded_monotone : forall x1 x2,
  x1 <= x2 ->
  0 <= blend x1 /\ blend x1 <= blend x2 /\ blend x2 <= 1.
Proof.
  intros x1 x2 Hle.
  destruct (blend_cases x1) as [[H1 E1]|[[H1 E1]|[H1l [H1r E1]]]];
  destruct (blend_cases x2) as [[H2 E2]|[[H2 E2]|[H2l [H2r E2]]]];
  rewrite E1, E2; lra.
Qed.

Lemma blend_bounded_monotone_witness :
  -1 <= 0.25
  /\ (0 <= blend (-1) /\ blend (-1) <= blend 0.25 /\ blend 0.25 <= 1).
Proof.
  split.
  - lra.
  - apply (blend_bounded_monotone (-1) 0.25). lra.
Defined.

(** Along the flight of one item: with a non-negative speed, a later
    clock value gives a blend factor at least as large. *)
Lemma blend_monotone_in_time : forall data t1 t2,
  0 <= speed data -> t1 <= t2 ->
  blend (horizontal data t1) <= blend (horizontal data t2).
Proof.
  intros data t1 t2 Hs Ht.
  apply blend_bounded_monotone. unfold horizontal.
  assert (t1 * speed data <= t2 * speed data)
    by (apply Qmult_le_compat_r; assumption).
  lra.
Qed.

(** The speed of a spawned item is at least 1.5 when the draw is a
    value of [Math.random()]. *)
Lemma newItem_speed : forall rand newId,
  0 <= rand 2%nat -> 1.5 <= speed (newItem rand newId).
Proof. intros rand newId H. simpl. lra. Qed.

(** ** Animator *)

Lemma applyBlend_pair : forall b takaGroup compGroup rest,
  applyBlend b (takaGroup :: compGroup :: rest) =
  withScale takaGroup (if Js.gt (1 - b) 0 then 1 - b else 0.001)
  :: withScale compGroup (if Js.gt b 0 then b else 0.001)
  :: rest.
Proof. reflexivity. Qed.

Lemma animate_unmounted : forall Math_sin Math_cos data elapsedTime a,
  groupRef a = None ->
  animate Math_sin Math_cos data elapsedTime a =
  Normal {| startTime := Some (birthTime a elapsedTime); groupRef := None |}.
Proof.
  intros Math_sin Math_cos data elapsedTime a H. unfold animate.
  now rewrite H.
Qed.

Lemma animate_mounted : forall Math_sin Math_cos data elapsedTime a g,
  groupRef a = Some g ->
  exists g',
    animate Math_sin Math_cos data elapsedTime a =
    Normal {| startTime := Some (birthTime a elapsedTime);
              groupRef := Some g' |}
    /\ Three.x (position g') =
       horizontal data (elapsedTime - birthTime a elapsedTime)
    /\ children g' =
       applyBlend
         (blend (horizontal data (elapsedTime - birthTime a elapsedTime)))
         (children g).
Proof.
  intros Math_sin Math_cos data elapsedTime a g H. unfold animate.
  rewrite H. cbv zeta. eexists. split; [reflexivity|].
  split; reflexivity.
Qed.

Lemma gt_true : forall a b, b < a -> Js.gt a b = true.
Proof.
  intros a b H. unfold Js.gt. destruct (Qlt_le_dec b a); [reflexivity | lra].
Qed.

Lemma gt_false : forall a b, a <= b -> Js.gt a b = false.
Proof.
  intros a b H. unfold Js.gt. destruct (Qlt_le_dec b a); [lra | reflexivity].
Qed.

(** C4.  With the group and its two children mounted: at a position
    strictly left of the zone (x < -0.5) the blend factor is 0 and the
    component child is set to the minimum scale 0.001; strictly right of
    it (x > 0.5) the blend factor is 1 and the token child is set to the
    minimum scale 0.001. *)
Theorem outside_zone_scales :
  forall Math_sin Math_cos data elapsedTime a g takaGroup compGroup rest,
  groupRef a = Some g ->
  children g = takaGroup :: compGroup :: rest ->
  let x := horizontal data (elapsedTime - birthTime a elapsedTime) in
  exists a',
    animate Math_sin Math_cos data elapsedTime a = Normal a'
    /\ (x < -0.5 ->
        blend x = 0 /\ childScale 1 a' = Some (setScalar 0.001))
    /\ (0.5 < x ->
        blend x = 1 /\ childScale 0 a' = Some (setScalar 0.001)).
Proof.
  intros Math_sin Math_cos data elapsedTime a g takaGroup compGroup rest
    Hg Hc. cbv zeta.
  destruct (animate_mounted Math_sin Math_cos data elapsedTime a g Hg)
    as [g' [E [_ Hc']]].
  eexists. split; [exact E|].
  unfold childScale. cbn [groupRef]. rewrite Hc', Hc, applyBlend_pair.
  split; intros Hx.
  - rewrite (blend_left _ Hx). split; [reflexivity|].
    rewrite (gt_false 0 0) by lra. reflexivity.
  - rewrite (blend_right _ Hx). split; [reflexivity|].
    rewrite (gt_false (1 - 1) 0) by lra. reflexivity.
Qed.

Lemma outside_zone_scales_witness :
  let data := newItem (fun _ => 0) 0%Z in
  let a := {| startTime := Some 2; groupRef := Some mountedGroup |} in
  let x := horizontal data (3 - birthTime a 3) in
  x < -0.5
  /\ exists a',
       animate (fun _ => 0) (fun _ => 0) data 3 a = Normal a'
       /\ blend x = 0
       /\ childScale 1 a' = Some (setScalar 0.001).
Proof.
  cbv zeta.
  assert (Hx : horizontal (newItem (fun _ => 0) 0%Z)
                 (3 - birthTime
                        {| startTime := Some 2;
                           groupRef := Some mountedGroup |} 3) < -0.5)
    by (vm_compute; reflexivity).
  split; [exact Hx|].
  destruct (outside_zone_scales (fun _ => 0) (fun _ => 0)
              (newItem (fun _ => 0) 0%Z) 3
              {| startTime := Some 2; groupRef := Some mountedGroup |}
              mountedGroup
              (mkObject3D (setScalar 1) true)
              (mkObject3D (setScalar 0.001) true)
              [] eq_refl eq_refl) as [a' [E [L _]]].
  exists a'. split; [exact E | exact (L Hx)].
Defined.

(** C5 (as amended).  With the group and its two children mounted, a
    frame sets the token child to scale [1 - blend] when that is
    positive and to 0.001 otherwise, and sets the component child to
    scale [blend] when that is positive and to 0.001 otherwise; both
    scales are positive.  This scene has no scale jitter: the component
    scale is the blend factor itself. *)
Theorem scales_follow_blend :
  forall Math_sin Math_cos data elapsedTime a g takaGroup compGroup rest,
  groupRef a = Some g ->
  children g = takaGroup :: compGroup :: rest ->
  let b := blend (horizontal data (elapsedTime - birthTime a elapsedTime)) in
  exists a' takaScale compScale,
    animate Math_sin Math_cos data elapsedTime a = Normal a'
    /\ childScale 0 a' = Some (setScalar takaScale)
    /\ childScale 1 a' = Some (setScalar compScale)
    /\ 0 < takaScale /\ 0 < compScale
    /\ (b < 1 -> takaScale = 1 - b) /\ (1 <= b -> takaScale = 0.001)
    /\ (0 < b -> compScale = b) /\ (b <= 0 -> compScale = 0.001).
Proof.
  intros Math_sin Math_cos data elapsedTime a g takaGroup compGroup rest
    Hg Hc. cbv zeta.
  destruct (animate_mounted Math_sin Math_cos data elapsedTime a g Hg)
    as [g' [E [_ Hc']]].
  set (b := blend _) in *.
  exists {| startTime := Some (birthTime a elapsedTime);
            groupRef := Some g' |}.
  exists (if Js.gt (1 - b) 0 then 1 - b else 0.001).
  exists (if Js.gt b 0 then b else 0.001).
  split; [exact E|].
  unfold childScale. cbn [groupRef]. rewrite Hc', Hc, applyBlend_pair.
  split; [reflexivity|]. split; [reflexivity|].
  unfold Js.gt.
  destruct (Qlt_le_dec 0 (1 - b)) as [H1|H1];
  destruct (Qlt_le_dec 0 b) as [H2|H2];
  repeat split; intros; try reflexivity; lra.
Qed.

Lemma scales_follow_blend_witness :
  let data := newItem (fun _ => 0) 0%Z in
  let a := {| startTime := Some 1; groupRef := Some mountedGroup |} in
  groupRef a = Some mountedGroup
  /\ exists a' takaScale compScale,
       animate (fun _ => 0) (fun _ => 0) data 7 a = Normal a'
       /\ childScale 0 a' = Some (setScalar takaScale)
       /\ childScale 1 a' = Some (setScalar compScale)
       /\ takaScale == 0.5 /\ compScale == 0.5.
Proof.
  cbv zeta. split; [reflexivity|].
  destruct (scales_follow_blend (fun _ => 0) (fun _ => 0)
              (newItem (fun _ => 0) 0%Z) 7
              {| startTime := Some 1; groupRef := Some mountedGroup |}
              mountedGroup
              (mkObject3D (setScalar 1) true)
              (mkObject3D (setScalar 0.001) true)
              [] eq_refl eq_refl)
    as [a' [sT [sC [E [H0 [H1 [_ [_ [HT [_ [HC _]]]]]]]]]]].
  exists a', sT, sC. repeat split; try assumption.
  - rewrite HT; vm_compute; reflexivity.
  - rewrite HC; vm_compute; reflexivity.
Defined.

(** C5, the claim as written, fails for the component child: at the
    start of the flight the blend factor is 0 and the component scale is
    set to 0.001, which is [blend * scaleJitter] for no jitter value. *)
Lemma component_scale_is_not_blend_times_jitter :
  let data := newItem (fun _ => 0) 0%Z in
  let a := {| startTime := Some 0; groupRef := Some mountedGroup |} in
  exists a',
    animate (fun _ => 0) (fun _ => 0) data 0 a = Normal a'
    /\ blend (horizontal data (0 - birthTime a 0)) = 0
    /\ childScale 1 a' = Some (setScalar 0.001)
    /\ forall scaleJitter : Q,
         ~ 0.001 == blend (horizontal data (0 - birthTime a 0)) * scaleJitter.
Proof.
  cbv zeta. eexists. split; [reflexivity|].
  split; [reflexivity|]. split; [reflexivity|].
  intros scaleJitter H.
  assert (E : blend (horizontal (newItem (fun _ => 0) 0%Z)
                (0 - birthTime {| startTime := Some 0;
                                  groupRef := Some mountedGroup |} 0)) = 0)
    by reflexivity.
  rewrite E in H. lra.
Qed.

(** C7.  An item of speed 1.5 is at position 0 after 6.0 time units of
    life, and its blend factor there is 0.5; a frame at that moment
    writes this position to the mounted group. *)
Theorem zone_center_scenario : forall Math_sin Math_cos data start g,
  speed data == 1.5 ->
  horizontal data 6.0 == 0
  /\ blend (horizontal data 6.0) == 0.5
  /\ exists g',
       animate Math_sin Math_cos data (start + 6.0)
         {| startTime := Some start; groupRef := Some g |}
       = Normal {| startTime := Some start; groupRef := Some g' |}
       /\ Three.x (position g') == 0
       /\ blend (Three.x (position g')) == 0.5.
Proof.
  intros Math_sin Math_cos data start g Hs.
  assert (H6 : forall t, t == 6.0 -> horizontal data t == 0).
  { intros t Ht. unfold horizontal. rewrite Ht, Hs. reflexivity. }
  assert (Hb : forall x, x == 0 -> blend x == 0.5).
  { intros x Hx. rewrite Hx. reflexivity. }
  split; [apply H6; reflexivity|].
  split; [apply Hb, H6; reflexivity|].
  destruct (animate_mounted Math_sin Math_cos data (start + 6.0)
              {| startTime := Some start; groupRef := Some g |} g eq_refl)
    as [g' [E [Hx _]]].
  exists g'. split; [exact E|].
  rewrite Hx. cbn [birthTime startTime].
  assert (Ht : start + 6.0 - start == 6.0) by ring.
  split; [apply H6, Ht | apply Hb, H6, Ht].
Qed.

Lemma zone_center_scenario_witness :
  let data := newItem (fun _ => 0) 0%Z in
  speed data == 1.5
  /\ horizontal data 6.0 == 0
  /\ blend (horizontal data 6.0) == 0.5.
Proof.
  cbv zeta.
  assert (Hs : speed (newItem (fun _ => 0) 0%Z) == 1.5) by reflexivity.
  split; [exact Hs|].
  destruct (zone_center_scenario (fun _ => 0) (fun _ => 0)
              (newItem (fun _ => 0) 0%Z) 0 mountedGroup Hs)
    as [H0 [H1 _]].
  split; assumption.
Defined.

(** ** Birth time and the unmounted group *)

Lemma animate_returns : forall Math_sin Math_cos data elapsedTime a,
  exists a',
    animate Math_sin Math_cos data elapsedTime a = Normal a'
    /\ startTime a' = Some (birthTime a elapsedTime).
Proof.
  intros Math_sin Math_cos data elapsedTime a.
  destruct (groupRef a) as [g|] eqn:Hg.
  - destruct (animate_mounted Math_sin Math_cos data elapsedTime a g Hg)
      as [g' [E _]].
    eexists. split; [exact E | reflexivity].
  - eexists. split; [apply animate_unmounted, Hg | reflexivity].
Qed.

(** Once set, the birth time survives every later mount and frame. *)
Lemma run_keeps_birth : forall Math_sin Math_cos data evs a s,
  startTime a = Some s ->
  exists a',
    run Math_sin Math_cos data evs a = Normal a' /\ startTime a' = Some s.
Proof.
  intros Math_sin Math_cos data evs.
  induction evs as [|ev evs IH]; intros a s Hs.
  - exists a. split; [reflexivity | exact Hs].
  - destruct ev as [g|elapsedTime]; simpl.
    + apply IH. exact Hs.
    + destruct (animate_returns Math_sin Math_cos data elapsedTime a)
        as [a1 [E1 H1]].
      rewrite E1. simpl. apply IH. rewrite H1.
      unfold birthTime. now rewrite Hs.
Qed.

(** C8 (as amended).  A frame that fires while the group is not mounted
    returns without an error and writes no transform: the group stays
    unmounted.  The only cell it may write is the birth time, stored
    when it is still unset; with the birth time already set the animator
    is left exactly as it was.  Once the group is mounted the next frame
    positions it from that birth time. *)
Theorem unmounted_frame_only_sets_birth :
  forall Math_sin Math_cos data elapsedTime a,
  groupRef a = None ->
  animate Math_sin Math_cos data elapsedTime a =
    Normal {| startTime := Some (birthTime a elapsedTime); groupRef := None |}
  /\ (forall s, startTime a = Some s ->
      animate Math_sin Math_cos data elapsedTime a = Normal a)
  /\ (forall g later, exists g',
      run Math_sin Math_cos data [Frame elapsedTime; Mount g; Frame later] a
      = Normal {| startTime := Some (birthTime a elapsedTime);
                  groupRef := Some g' |}
      /\ Three.x (position g') =
         horizontal data (later - birthTime a elapsedTime)).
Proof.
  intros Math_sin Math_cos data elapsedTime a Hg.
  pose proof (animate_unmounted Math_sin Math_cos data elapsedTime a Hg) as E.
  split; [exact E|]. split.
  - intros s Hs. rewrite E. unfold birthTime. rewrite Hs.
    destruct a as [st gr]. simpl in *. now subst.
  - intros g later. simpl. rewrite E. simpl.
    eexists. split; reflexivity.
Qed.

Lemma unmounted_frame_only_sets_birth_witness :
  groupRef unborn = None
  /\ animate (fun _ => 0) (fun _ => 0) (newItem (fun _ => 0) 0%Z) 5 unborn
     = Normal {| startTime := Some 5; groupRef := None |}.
Proof.
  split; [reflexivity|].
  apply (unmounted_frame_only_sets_birth (fun _ => 0) (fun _ => 0)
           (newItem (fun _ => 0) 0%Z) 5 unborn eq_refl).
Defined.

(** C8, the claim as written, fails on the first frame: with the group
    unmounted the frame is not a no-op, it stores the birth time. *)
Lemma unmounted_first_frame_changes_state :
  groupRef unborn = None
  /\ animate (fun _ => 0) (fun _ => 0) (newItem (fun _ => 0) 0%Z) 5 unborn
     = Normal {| startTime := Some 5; groupRef := None |}
  /\ {| startTime := Some 5; groupRef := None |} <> unborn.
Proof.
  split; [reflexivity|]. split; [reflexivity|]. discriminate.
Qed.

(** C9.  The first frame an animator sees stores its clock value as the
    birth time whether or not the group is mounted; no later mount or
    frame changes it; and the position written after a late mount counts
    the time alive from that first frame. *)
Theorem birth_time_set_once :
  forall Math_sin Math_cos data first mounted,
  (exists a1,
     animate Math_sin Math_cos data first
       {| startTime := None; groupRef := mounted |} = Normal a1
     /\ startTime a1 = Some first)
  /\ (forall evs, exists a',
      run Math_sin Math_cos data (Frame first :: evs)
        {| startTime := None; groupRef := mounted |} = Normal a'
      /\ startTime a' = Some first)
  /\ (forall g later, exists g',
      run Math_sin Math_cos data [Frame first; Mount g; Frame later] unborn
      = Normal {| startTime := Some first; groupRef := Some g' |}
      /\ Three.x (position g') = horizontal data (later - first)).
Proof.
  intros Math_sin Math_cos data first mounted.
  destruct (animate_returns Math_sin Math_cos data first
              {| startTime := None; groupRef := mounted |})
    as [a1 [E1 H1]].
  cbn [birthTime startTime] in H1.
  split; [exists a1; split; assumption|]. split.
  - intros evs. simpl. rewrite E1. simpl.
    apply run_keeps_birth. exact H1.
  - intros g later. eexists. split; reflexivity.
Qed.

(** ** Target variant in the GLTF scene *)

Lemma typeIndex_range : forall r,
  0 <= r -> r < 1 -> (2 <= GltfScene.typeIndex r <= 5)%Z.
Proof.
  intros r H0 H1. unfold GltfScene.typeIndex, Js.Math_floor.
  change (inject_Z (Z.of_nat (length GltfScene.COMPONENT_TYPES) - 2))
    with (inject_Z 4).
  assert (Hlo : (0 <= Qfloor (r * inject_Z 4))%Z).
  { rewrite <- (Qfloor_Z 0). apply Qfloor_resp_le.
    change (inject_Z 0) with 0. change (inject_Z 4) with 4. lra. }
  assert (Hhi : (Qfloor (r * inject_Z 4) < 4)%Z).
  { pose proof (Qfloor_le (r * inject_Z 4)) as Hf.
    change (inject_Z 4) with 4 in Hf.
    assert (Hlt : inject_Z (Qfloor (r * 4)) < inject_Z 4)
      by (change (inject_Z 4) with 4; lra).
    rewrite <- Zlt_Qlt in Hlt. exact Hlt. }
  lia.
Qed.

Lemma typeIndex_component : forall r,
  0 <= r -> r < 1 ->
  Js.index GltfScene.COMPONENT_TYPES (GltfScene.typeIndex r)
    = Some GltfScene.gpu
  \/ Js.index GltfScene.COMPONENT_TYPES (GltfScene.typeIndex r)
    = Some GltfScene.ram
  \/ Js.index GltfScene.COMPONENT_TYPES (GltfScene.typeIndex r)
    = Some GltfScene.cpu
  \/ Js.index GltfScene.COMPONENT_TYPES (GltfScene.typeIndex r)
    = Some GltfScene.motherboard.
Proof.
  intros r H0 H1. pose proof (typeIndex_range r H0 H1) as Hr.
  set (i := GltfScene.typeIndex r) in *.
  assert (Hi : i = 2%Z \/ i = 3%Z \/ i = 4%Z \/ i = 5%Z) by lia.
  destruct Hi as [E|[E|[E|E]]]; rewrite E; auto.
Qed.

Lemma newItem_type_component : forall rand newId,
  0 <= rand 3%nat -> rand 3%nat < 1 ->
  let item := GltfScene.newItem rand newId in
  GltfScene.isHardware (GltfScene.type item) = true
  /\ GltfScene.type item <> Some GltfScene.taka
  /\ ~ In GltfScene.FallbackGPU (GltfScene.componentChild item).
Proof.
  intros rand newId H0 H1. cbv zeta.
  unfold GltfScene.componentChild. cbn [GltfScene.type GltfScene.newItem].
  destruct (typeIndex_component (rand 3%nat) H0 H1) as [E|[E|[E|E]]];
    rewrite E; (split; [reflexivity|]); (split; [discriminate|]);
    simpl; intros [H|[]]; discriminate.
Qed.

Lemma Forall_spawnUpdater : forall (P : GltfScene.FlyingItem -> Prop) item prev,
  P item -> Forall P prev -> Forall P (GltfScene.spawnUpdater item prev).
Proof.
  intros P item prev Hi Hp. unfold GltfScene.spawnUpdater.
  rewrite filter_keep_all. apply Forall_app. split.
  - destruct (12 <? length prev)%nat; [|exact Hp].
    destruct prev as [|p prev]; simpl; [constructor|].
    now inversion Hp.
  - constructor; [exact Hi | constructor].
Qed.

(** C10.  In the GLTF scene, whose tag list starts with two token
    entries, every item held by the scene after any run of frames whose
    draws are values of [Math.random()] (in [0, 1)) has one of the four
    hardware tags, never the token tag, and its component child never
    takes the fallback branch. *)
Theorem spawned_items_are_components : forall ticks,
  Forall (fun t => 0 <= snd t 3%nat /\ snd t 3%nat < 1) ticks ->
  Forall (fun item =>
            GltfScene.isHardware (GltfScene.type item) = true
            /\ GltfScene.type item <> Some GltfScene.taka
            /\ ~ In GltfScene.FallbackGPU (GltfScene.componentChild item))
         (GltfScene.items (GltfScene.frames ticks GltfScene.initialScene)).
Proof.
  induction ticks as [|t ticks IH] using rev_ind; intros Hr.
  - constructor.
  - apply Forall_app in Hr. destruct Hr as [Hr Ht].
    inversion Ht as [|? ? [H0 H1] _]; subst.
    specialize (IH Hr).
    unfold GltfScene.frames in *. rewrite fold_left_app. simpl.
    set (s := fold_left _ ticks GltfScene.initialScene) in *.
    unfold GltfScene.useFrame.
    destruct (Js.gt (fst t - GltfScene.lastSpawnTime s) 1.2); [|exact IH].
    simpl. apply Forall_spawnUpdater; [|exact IH].
    apply (newItem_type_component (snd t) (GltfScene.nextId s) H0 H1).
Qed.

Lemma spawned_items_are_components_witness :
  let ticks := [(2, fun _ : nat => 0.99); (4, fun _ : nat => 0)] in
  Forall (fun t => 0 <= snd t 3%nat /\ snd t 3%nat < 1) ticks
  /\ Forall (fun item =>
               GltfScene.isHardware (GltfScene.type item) = true
               /\ GltfScene.type item <> Some GltfScene.taka
               /\ ~ In GltfScene.FallbackGPU (GltfScene.componentChild item))
            (GltfScene.items (GltfScene.frames ticks GltfScene.initialScene)).
Proof.
  cbv zeta.
  assert (Hr : Forall (fun t : Q * (nat -> Q) =>
                         0 <= snd t 3%nat /\ snd t 3%nat < 1)
                 [(2, fun _ : nat => 0.99); (4, fun _ : nat => 0)]).
  { repeat constructor; simpl; lra. }
  split; [exact Hr|].
  apply (spawned_items_are_components
           [(2, fun _ : nat => 0.99); (4, fun _ : nat => 0)] Hr).
Defined.

(** The two witness frames above do spawn: a motherboard, then a gpu. *)
Example spawned_items_types :
  map GltfScene.type
    (GltfScene.items
       (GltfScene.frames [(2, fun _ : nat => 0.99); (4, fun _ : nat => 0)]
          GltfScene.initialScene))
  = [Some GltfScene.motherboard; Some GltfScene.gpu].
Proof. vm_compute. reflexivity. Qed.

(** The fallback branch itself is live code: an item carrying the token
    tag would render the fallback model. *)
Example fallback_branch_on_token_tag :
  GltfScene.componentChild
    {| GltfScene.id := 0; GltfScene.initialY := 0; GltfScene.initialZ := 0;
       GltfScene.speed := 1; GltfScene.type := Some GltfScene.taka;
       GltfScene.rotationSpeed := mkVector3 0 0 0;
       GltfScene.scaleVar := 1 |}
  = [GltfScene.FallbackGPU].
Proof. reflexivity. Qed.

(** ** The GLTF scene's animator *)

(** Right of x = 0.5 the component child is shown at scale
    [min(1, (x - 0.5) * 2) * scaleVar]; the token child is hidden and
    keeps its scale. *)
Lemma showHide_right : forall data x takaGroup compGroup rest,
  0.5 < x ->
  GltfScene.showHide data x (takaGroup :: compGroup :: rest) =
  Normal (withVisible takaGroup false
          :: withScale (withVisible compGroup true)
               (Qmin 1 ((x - 0.5) * 2) * GltfScene.scaleVar data)
          :: rest).
Proof.
  intros data x takaGroup compGroup rest H. unfold GltfScene.showHide, Js.lt.
  destruct (Qlt_le_dec x (-0.5)); [lra|].
  now rewrite gt_true by exact H.
Qed.

(** Left of x = -0.5 the token child is shown at scale 1 and the
    component child is hidden, its scale untouched. *)
Lemma showHide_left : forall data x takaGroup compGroup rest,
  x < -0.5 ->
  GltfScene.showHide data x (takaGroup :: compGroup :: rest) =
  Normal (withScale (withVisible takaGroup true) 1
          :: withVisible compGroup false
          :: rest).
Proof.
  intros data x takaGroup compGroup rest H. unfold GltfScene.showHide, Js.lt.
  destruct (Qlt_le_dec x (-0.5)); [reflexivity | lra].
Qed.

(** In this scene the token scale does reach 0: at x = 0.25 it is
    [max(0, 1 - 0.75 * 2)]. *)
Example showHide_token_scale_zero :
  exists takaGroup' compGroup',
    GltfScene.showHide (GltfScene.newItem (fun _ => 0.5) 0%Z) 0.25
      [mkObject3D (setScalar 1) true; mkObject3D (setScalar 1) false]
    = Normal [takaGroup'; compGroup']
    /\ Three.x (scale takaGroup') == 0
    /\ visible takaGroup' = false
    /\ Three.x (scale compGroup') == 0.5
    /\ visible compGroup' = true.
Proof.
  eexists. eexists. split; [vm_compute; reflexivity|].
  repeat split; vm_compute; reflexivity.
Qed.

(** The children are written without a test: a mounted group with
    fewer than two children makes the frame throw. *)
Example animate_missing_child_throws :
  GltfScene.animate (fun _ => 0) (fun _ => 0)
    (GltfScene.newItem (fun _ => 0.5) 0%Z) 1
    {| GltfScene.startTime := None;
       GltfScene.groupRef := Some (mkGroup (mkVector3 0 0 0)
                                     (mkVector3 0 0 0) []);
       GltfScene.transformed := false |}
  = Throw.
Proof. reflexivity. Qed.

(** With the group unmounted the frame returns after the birth time is
    stored, as in the other scene. *)
Lemma gltf_animate_unmounted : forall Math_sin Math_cos data elapsedTime a,
  GltfScene.groupRef a = None ->
  GltfScene.animate Math_sin Math_cos data elapsedTime a =
  Normal {| GltfScene.startTime := Some (GltfScene.birthTime a elapsedTime);
            GltfScene.groupRef := None;
            GltfScene.transformed := GltfScene.transformed a |}.
Proof.
  intros Math_sin Math_cos data elapsedTime a H.
  unfold GltfScene.animate. now rewrite H.
Qed.

(** * Further properties of the spawner *)

(** Dropping the oldest id when more than [cap] are held and appending
    the next one keeps the ids the most recent ones, oldest first. *)
Lemma recent_ids_step : forall cap n (ids : list Z),
  ids = map Z.of_nat (seq (n - Nat.min n (S cap)) (Nat.min n (S cap))) ->
  (if (cap <? length ids)%nat then tl ids else ids) ++ [Z.of_nat n]
  = map Z.of_nat (seq (S n - Nat.min (S n) (S cap)) (Nat.min (S n) (S cap))).
Proof.
  intros cap n ids ->. rewrite length_map, length_seq.
  destruct (Nat.ltb_spec cap (Nat.min n (S cap))) as [H|H].
  - assert (Hm : Nat.min n (S cap) = S cap) by lia.
    assert (Hm' : Nat.min (S n) (S cap) = S cap) by lia.
    rewrite Hm, Hm'.
    replace (S n - S cap)%nat with (S (n - S cap)) by lia.
    rewrite <- (tl_seq_snoc (n - S cap) cap), map_app, map_tl_comm.
    simpl map at 3. do 3 f_equal. lia.
  - assert (Hm : Nat.min n (S cap) = n) by lia.
    assert (Hm' : Nat.min (S n) (S cap) = S n) by lia.
    rewrite Hm, Hm'.
    replace (n - n)%nat with 0%nat by lia.
    replace (S n - S n)%nat with 0%nat by lia.
    rewrite seq_S, map_app. reflexivity.
Qed.

Lemma NoDup_recent_ids : forall a m, NoDup (map Z.of_nat (seq a m)).
Proof.
  intros a m. revert a.
  induction m as [|m IH]; intros a; simpl; constructor.
  - intros Hin. apply in_map_iff in Hin. destruct Hin as [k [Hk Hin]].
    apply in_seq in Hin. lia.
  - apply IH.
Qed.

Lemma frames_recent_ids : forall ticks,
  let s := frames ticks initialScene in
  exists n,
    nextId s = Z.of_nat n
    /\ map id (items s) = map Z.of_nat (seq (n - Nat.min n 9) (Nat.min n 9)).
Proof.
  induction ticks as [|t ticks IH] using rev_ind.
  - exists 0%nat. split; reflexivity.
  - cbv zeta in *. destruct IH as [n [Hn Hids]].
    unfold frames in *. rewrite fold_left_app. simpl.
    set (s := fold_left _ ticks initialScene) in *.
    destruct (useFrame_cases (fst t) (snd t) s) as [[_ E]|[_ E]]; rewrite E.
    + exists n. split; assumption.
    + exists (S n). cbn [items nextId]. split; [rewrite Hn; lia|].
      unfold spawnUpdater. rewrite filter_keep_all, map_app.
      change (map id [newItem (snd t) (nextId s)]) with [nextId s].
      rewrite Hn. rewrite <- (recent_ids_step 8 n (map id (items s)) Hids).
      rewrite length_map. unfold Js.shift.
      destruct (8 <? length (items s))%nat;
        [rewrite map_tl_comm|]; reflexivity.
Qed.

(** X1.  After any run of frames from the empty scene, [nextId] is the
    number [n] of items created so far and the active items are exactly
    the last [min n 9] of them, ids [n - min n 9 .. n - 1], oldest
    first. *)
Theorem active_items_are_most_recent : forall ticks,
  let s := frames ticks initialScene in
  exists n,
    nextId s = Z.of_nat n
    /\ map id (items s) = map Z.of_nat (seq (n - Nat.min n 9) (Nat.min n 9)).
Proof. exact frames_recent_ids. Qed.

(** X2.  The ids of the active items, which are the React keys of the
    rendered animators, are pairwise distinct after any run of frames. *)
Theorem render_keys_distinct : forall ticks,
  NoDup (map id (items (frames ticks initialScene))).
Proof.
  intros ticks.
  destruct (frames_recent_ids ticks) as [n [_ Hids]].
  cbv zeta in Hids. rewrite Hids. apply NoDup_recent_ids.
Qed.

Lemma gltf_useFrame_cases : forall elapsedTime rand s,
  (~ 1.2 < elapsedTime - GltfScene.lastSpawnTime s
   /\ GltfScene.useFrame elapsedTime rand s = s)
  \/ (1.2 < elapsedTime - GltfScene.lastSpawnTime s
      /\ GltfScene.useFrame elapsedTime rand s =
         {| GltfScene.items :=
              GltfScene.spawnUpdater
                (GltfScene.newItem rand (GltfScene.nextId s))
                (GltfScene.items s);
            GltfScene.nextId := (GltfScene.nextId s + 1)%Z;
            GltfScene.lastSpawnTime := elapsedTime |}).
Proof.
  intros elapsedTime rand s. unfold GltfScene.useFrame, Js.gt.
  destruct (Qlt_le_dec 1.2 (elapsedTime - GltfScene.lastSpawnTime s))
    as [H|H].
  - right. split; [exact H | reflexivity].
  - left. split; [lra | reflexivity].
Qed.

Lemma gltf_frames_recent_ids : forall ticks,
  let s := GltfScene.frames ticks GltfScene.initialScene in
  exists n,
    GltfScene.nextId s = Z.of_nat n
    /\ map GltfScene.id (GltfScene.items s)
       = map Z.of_nat (seq (n - Nat.min n 13) (Nat.min n 13)).
Proof.
  induction ticks as [|t ticks IH] using rev_ind.
  - exists 0%nat. split; reflexivity.
  - cbv zeta in *. destruct IH as [n [Hn Hids]].
    unfold GltfScene.frames in *. rewrite fold_left_app. simpl.
    set (s := fold_left _ ticks GltfScene.initialScene) in *.
    destruct (gltf_useFrame_cases (fst t) (snd t) s) as [[_ E]|[_ E]];
      rewrite E.
    + exists n. split; assumption.
    + exists (S n). cbn [GltfScene.items GltfScene.nextId].
      split; [rewrite Hn; lia|].
      unfold GltfScene.spawnUpdater. rewrite filter_keep_all, map_app.
      change (map GltfScene.id
                [GltfScene.newItem (snd t) (GltfScene.nextId s)])
        with [GltfScene.nextId s].
      rewrite Hn.
      rewrite <- (recent_ids_step 12 n
                    (map GltfScene.id (GltfScene.items s)) Hids).
      rewrite length_map. unfold Js.shift.
      destruct (12 <? length (GltfScene.items s))%nat;
        [rewrite map_tl_comm|]; reflexivity.
Qed.

(** X3.  In the GLTF scene, whose capacity test is [> 12], the active
    items after any run of frames are the last [min n 13] of the [n]
    items created, oldest first: the collection holds at most thirteen
    items and their ids are pairwise distinct. *)
Theorem gltf_active_items_bound : forall ticks,
  let s := GltfScene.frames ticks GltfScene.initialScene in
  (exists n,
     GltfScene.nextId s = Z.of_nat n
     /\ map GltfScene.id (GltfScene.items s)
        = map Z.of_nat (seq (n - Nat.min n 13) (Nat.min n 13)))
  /\ (length (GltfScene.items s) <= 13)%nat
  /\ NoDup (map GltfScene.id (GltfScene.items s)).
Proof.
  intros ticks. cbv zeta.
  pose proof (gltf_frames_recent_ids ticks) as H. cbv zeta in H.
  split; [exact H|]. destruct H as [n [_ Hids]]. split.
  - rewrite <- (length_map GltfScene.id), Hids, length_map, length_seq. lia.
  - rewrite Hids. apply NoDup_recent_ids.
Qed.

(** Thirteen is reached: fourteen spawning frames leave ids 1..13. *)
Example gltf_thirteen_items :
  map GltfScene.id
    (GltfScene.items
       (GltfScene.frames
          (map (fun i => (inject_Z (Z.of_nat i) * 2, fun _ : nat => 0))
             (seq 1 14))
          GltfScene.initialScene))
  = [1; 2; 3; 4; 5; 6; 7; 8; 9; 10; 11; 12; 13]%Z.
Proof. vm_compute. reflexivity. Qed.

(** Every spawn comes more than one interval after the previous one,
    so the last spawn time bounds the number of items created. *)
Lemma frames_rate_invariant : forall ticks T,
  Forall (fun t => fst t <= T) ticks -> 0 <= T ->
  let s := frames ticks initialScene in
  inject_Z (nextId s) * 1.8 <= lastSpawnTime s /\ lastSpawnTime s <= T.
Proof.
  induction ticks as [|t ticks IH] using rev_ind; intros T Hc HT.
  - split; [vm_compute; discriminate | exact HT].
  - apply Forall_app in Hc. destruct Hc as [Hc Ht].
    inversion Ht as [|? ? Hle _]; subst.
    specialize (IH T Hc HT). cbv zeta in *.
    unfold frames in *. rewrite fold_left_app. simpl.
    set (s := fold_left _ ticks initialScene) in *.
    destruct (useFrame_cases (fst t) (snd t) s) as [[_ E]|[Hgt E]];
      rewrite E.
    + exact IH.
    + cbn [nextId lastSpawnTime]. rewrite inject_Z_plus.
      change (inject_Z 1) with 1. lra.
Qed.

(** X4.  The spawner is rate limited: if no frame of a run has a clock
    value above [T], at most [T / 1.8] items have been created, whatever
    the number of frames. *)
Theorem spawn_rate_bound : forall ticks T,
  Forall (fun t => fst t <= T) ticks -> 0 <= T ->
  inject_Z (nextId (frames ticks initialScene)) * 1.8 <= T.
Proof.
  intros ticks T Hc HT.
  pose proof (frames_rate_invariant ticks T Hc HT) as H. cbv zeta in H.
  lra.
Qed.

Lemma spawn_rate_bound_witness :
  let ticks := [(1, fun _ : nat => 0); (2, fun _ : nat => 0);
                (3, fun _ : nat => 0); (4, fun _ : nat => 0)] in
  Forall (fun t => fst t <= 4) ticks
  /\ nextId (frames ticks initialScene) = 2%Z
  /\ inject_Z (nextId (frames ticks initialScene)) * 1.8 <= 4.
Proof.
  cbv zeta.
  assert (Hc : Forall (fun t : Q * (nat -> Q) => fst t <= 4)
                 [(1, fun _ : nat => 0); (2, fun _ : nat => 0);
                  (3, fun _ : nat => 0); (4, fun _ : nat => 0)]).
  { repeat constructor; simpl; lra. }
  split; [exact Hc|]. split; [vm_compute; reflexivity|].
  apply (spawn_rate_bound _ 4 Hc). lra.
Defined.

(** ** Ranges of the randomised item parameters *)






(** * Further properties of the animator *)

Lemma animate_mounted_eq : forall Math_sin Math_cos data elapsedTime a g,
  groupRef a = Some g ->
  let timeAlive := elapsedTime - birthTime a elapsedTime in
  animate Math_sin Math_cos data elapsedTime a =
  Normal
    {| startTime := Some (birthTime a elapsedTime);
       groupRef :=
         Some {| position :=
                   {| x := horizontal data timeAlive;
                      y := initialY data
                           + Math_sin (timeAlive + inject_Z (id data)) * 0.5;
                      z := initialZ data
                           + Math_cos (timeAlive * 0.8 + inject_Z (id data))
                             * 0.5 |};
                 rotation :=
                   {| x := Three.x (rotation g)
                           + Three.x (rotationSpeed data);
                      y := Three.y (rotation g)
                           + Three.y (rotationSpeed data);
                      z := Three.z (rotation g)
                           + Three.z (rotationSpeed data) |};
                 children :=
                   applyBlend (blend (horizontal data timeAlive))
                     (children g) |} |}.
Proof.
  intros Math_sin Math_cos data elapsedTime a g H. unfold animate.
  rewrite H. reflexivity.
Qed.




Lemma applyBlend_idempotent : forall b children,
  applyBlend b (applyBlend b children) = applyBlend b children.
Proof.
  intros b [|takaGroup [|compGroup rest]]; reflexivity.
Qed.

(** X8.  Position and child scales are functions of the clock and the
    birth time alone: a second frame at the same clock value leaves the
    birth time, the position and the children as the first frame set
    them. *)
Theorem frame_replay_keeps_position_and_scales :
  forall Math_sin Math_cos data elapsedTime a g,
  groupRef a = Some g ->
  exists a1 g1 a2 g2,
    animate Math_sin Math_cos data elapsedTime a = Normal a1
    /\ groupRef a1 = Some g1
    /\ animate Math_sin Math_cos data elapsedTime a1 = Normal a2
    /\ groupRef a2 = Some g2
    /\ startTime a2 = startTime a1
    /\ position g2 = position g1
    /\ children g2 = children g1.
Proof.
  intros Math_sin Math_cos data elapsedTime a g Hg.
  pose proof (animate_mounted_eq Math_sin Math_cos data elapsedTime a g Hg)
    as E1. cbv zeta in E1.
  eexists. eexists. eexists. eexists.
  split; [exact E1|]. split; [reflexivity|].
  split; [apply animate_mounted_eq; reflexivity|].
  split; [reflexivity|]. cbv zeta.
  cbn [startTime groupRef position children birthTime].
  split; [reflexivity|]. split; [reflexivity|].
  apply applyBlend_idempotent.
Qed.

Lemma frame_replay_keeps_position_and_scales_witness :
  let data := newItem (fun _ => 0.75) 0%Z in
  let a := {| startTime := Some 1; groupRef := Some mountedGroup |} in
  groupRef a = Some mountedGroup
  /\ exists a1 g1 a2 g2,
       animate (fun _ => 0) (fun _ => 0) data 6 a = Normal a1
       /\ groupRef a1 = Some g1
       /\ animate (fun _ => 0) (fun _ => 0) data 6 a1 = Normal a2
       /\ groupRef a2 = Some g2
       /\ position g2 = position g1.
Proof.
  cbv zeta. split; [reflexivity|].
  destruct (frame_replay_keeps_position_and_scales
              (fun _ => 0) (fun _ => 0) (newItem (fun _ => 0.75) 0%Z) 6
              {| startTime := Some 1; groupRef := Some mountedGroup |}
              mountedGroup eq_refl)
    as [a1 [g1 [a2 [g2 [E1 [H1 [E2 [H2 [_ [Hp _]]]]]]]]]].
  exists a1, g1, a2, g2. repeat split; assumption.
Defined.

Lemma applyBlend_visible : forall b children,
  map visible (applyBlend b children) = map visible children.
Proof.
  intros b [|takaGroup [|compGroup rest]]; reflexivity.
Qed.

Lemma applyBlend_few : forall b children,
  (length children < 2)%nat -> applyBlend b children = children.
Proof.
  intros b [|takaGroup [|compGroup rest]] H; try reflexivity.
  simpl in H. lia.
Qed.

Lemma applyBlend_rest : forall b children,
  skipn 2 (applyBlend b children) = skipn 2 children.
Proof.
  intros b [|takaGroup [|compGroup rest]]; reflexivity.
Qed.

(** X9.  A frame of the glowing scene's animator never shows or hides
    anything and never adds or removes a child: the visibility flags of
    all children are unchanged, children after the first two are
    untouched, and a group with fewer than two children keeps its
    children as they are while its position is still written. *)
Theorem frame_keeps_visibility_and_extra_children :
  forall Math_sin Math_cos data elapsedTime a g,
  groupRef a = Some g ->
  exists a' g',
    animate Math_sin Math_cos data elapsedTime a = Normal a'
    /\ groupRef a' = Some g'
    /\ map visible (children g') = map visible (children g)
    /\ length (children g') = length (children g)
    /\ skipn 2 (children g') = skipn 2 (children g)
    /\ ((length (children g) < 2)%nat ->
        children g' = children g
        /\ Three.x (position g') =
           horizontal data (elapsedTime - birthTime a elapsedTime)).
Proof.
  intros Math_sin Math_cos data elapsedTime a g Hg.
  pose proof (animate_mounted_eq Math_sin Math_cos data elapsedTime a g Hg)
    as E. cbv zeta in E.
  eexists. eexists. split; [exact E|]. split; [reflexivity|].
  cbn [children position Three.x].
  split; [apply applyBlend_visible|].
  split.
  - rewrite <- (length_map visible), applyBlend_visible.
    apply length_map.
  - split; [apply applyBlend_rest|].
    intros Hlen. split; [now apply applyBlend_few | reflexivity].
Qed.

Lemma frame_keeps_visibility_and_extra_children_witness :
  let data := newItem (fun _ => 0.75) 0%Z in
  let lonely := mkGroup (mkVector3 0 0 0) (mkVector3 0 0 0)
                  [mkObject3D (setScalar 1) true] in
  let a := {| startTime := Some 0; groupRef := Some lonely |} in
  groupRef a = Some lonely
  /\ exists a' g',
       animate (fun _ => 0) (fun _ => 0) data 4 a = Normal a'
       /\ groupRef a' = Some g'
       /\ children g' = children lonely.
Proof.
  cbv zeta. split; [reflexivity|].
  destruct (frame_keeps_visibility_and_extra_children
              (fun _ => 0) (fun _ => 0) (newItem (fun _ => 0.75) 0%Z) 4
              {| startTime := Some 0;
                 groupRef :=
                   Some (mkGroup (mkVector3 0 0 0) (mkVector3 0 0 0)
                           [mkObject3D (setScalar 1) true]) |}
              _ eq_refl)
    as [a' [g' [E [Hg' [_ [_ [_ Hfew]]]]]]].
  exists a', g'. split; [exact E|]. split; [exact Hg'|].
  apply Hfew. simpl. lia.
Defined.

(** X10.  Inside the open transformation zone (-0.5 < x < 0.5) the two
    representations cross-fade: both scales are strictly between 0 and
    1 and they add up to 1. *)
Theorem crossfade_scales_sum_to_one :
  forall Math_sin Math_cos data elapsedTime a g takaGroup compGroup rest,
  groupRef a = Some g ->
  children g = takaGroup :: compGroup :: rest ->
  -0.5 < horizontal data (elapsedTime - birthTime a elapsedTime) ->
  horizontal data (elapsedTime - birthTime a elapsedTime) < 0.5 ->
  exists a' takaScale compScale,
    animate Math_sin Math_cos data elapsedTime a = Normal a'
    /\ childScale 0 a' = Some (setScalar takaScale)
    /\ childScale 1 a' = Some (setScalar compScale)
    /\ 0 < takaScale /\ takaScale < 1
    /\ 0 < compScale /\ compScale < 1
    /\ takaScale + compScale == 1.
Proof.
  intros Math_sin Math_cos data elapsedTime a g takaGroup compGroup rest
    Hg Hc Hl Hr.
  pose proof (animate_mounted_eq Math_sin Math_cos data elapsedTime a g Hg)
    as E. cbv zeta in E.
  set (x := horizontal data (elapsedTime - birthTime a elapsedTime)) in *.
  pose proof (blend_zone x) as Hb.
  assert (Hbx : blend x == x + 0.5) by (apply Hb; lra).
  eexists. exists (1 - blend x), (blend x).
  split; [exact E|].
  unfold childScale. cbn [groupRef children]. rewrite Hc, applyBlend_pair.
  rewrite (gt_true (1 - blend x) 0) by lra.
  rewrite (gt_true (blend x) 0) by lra.
  split; [reflexivity|]. split; [reflexivity|].
  repeat split; lra.
Qed.

Lemma crossfade_scales_sum_to_one_witness :
  let data := newItem (fun _ => 0) 0%Z in
  let a := {| startTime := Some 0; groupRef := Some mountedGroup |} in
  (-0.5 < horizontal data (6.2 - birthTime a 6.2)
   /\ horizontal data (6.2 - birthTime a 6.2) < 0.5)
  /\ exists a' takaScale compScale,
       animate (fun _ => 0) (fun _ => 0) data 6.2 a = Normal a'
       /\ childScale 0 a' = Some (setScalar takaScale)
       /\ childScale 1 a' = Some (setScalar compScale)
       /\ takaScale + compScale == 1.
Proof.
  cbv zeta.
  assert (Hl : -0.5 < horizontal (newItem (fun _ => 0) 0%Z)
                 (6.2 - birthTime {| startTime := Some 0;
                                     groupRef := Some mountedGroup |} 6.2))
    by (vm_compute; reflexivity).
  assert (Hr : horizontal (newItem (fun _ => 0) 0%Z)
                 (6.2 - birthTime {| startTime := Some 0;
                                     groupRef := Some mountedGroup |} 6.2)
               < 0.5)
    by (vm_compute; reflexivity).
  split; [split; assumption|].
  destruct (crossfade_scales_sum_to_one (fun _ => 0) (fun _ => 0)
              (newItem (fun _ => 0) 0%Z) 6.2
              {| startTime := Some 0; groupRef := Some mountedGroup |}
              mountedGroup
              (mkObject3D (setScalar 1) true)
              (mkObject3D (setScalar 0.001) true)
              [] eq_refl eq_refl Hl Hr)
    as [a' [sT [sC [E [H0 [H1 [_ [_ [_ [_ Hsum]]]]]]]]]].
  exists a', sT, sC. repeat split; assumption.
Defined.

(** X11.  The flight of an item with a speed in [1.5, 2), the range of
    spawned items: it is a pure token (blend 0) while it has lived less
    than 4.25 time units and a pure component (blend 1) once it has
    lived more than 19/3 time units. *)
Theorem spawned_item_timeline : forall data timeAlive,
  1.5 <= speed data -> speed data < 2 ->
  (timeAlive < 4.25 -> blend (horizontal data timeAlive) = 0)
  /\ ((19 # 3) < timeAlive -> blend (horizontal data timeAlive) = 1).
Proof.
  intros data timeAlive Hlo Hhi. unfold horizontal. split; intros Ht.
  - apply blend_left.
    destruct (Qlt_le_dec timeAlive 0) as [Hneg|Hpos].
    + assert (timeAlive * speed data <= 0 * speed data)
        by (apply Qmult_le_compat_r; lra).
      lra.
    + assert (timeAlive * speed data <= timeAlive * 2).
      { rewrite (Qmult_comm timeAlive (speed data)),
                (Qmult_comm timeAlive 2).
        apply Qmult_le_compat_r; lra. }
      lra.
  - apply blend_right.
    assert (timeAlive * 1.5 <= timeAlive * speed data).
    { rewrite (Qmult_comm timeAlive (speed data)),
              (Qmult_comm timeAlive 1.5).
      apply Qmult_le_compat_r; lra. }
    lra.
Qed.

Lemma spawned_item_timeline_witness :
  let data := newItem (fun _ => 0.5) 0%Z in
  (1.5 <= speed data /\ speed data < 2)
  /\ blend (horizontal data 4) = 0
  /\ blend (horizontal data 7) = 1.
Proof.
  cbv zeta.
  assert (Hlo : 1.5 <= speed (newItem (fun _ => 0.5) 0%Z))
    by (vm_compute; discriminate).
  assert (Hhi : speed (newItem (fun _ => 0.5) 0%Z) < 2)
    by (vm_compute; reflexivity).
  split; [split; assumption|].
  destruct (spawned_item_timeline (newItem (fun _ => 0.5) 0%Z) 4 Hlo Hhi)
    as [H4 _].
  destruct (spawned_item_timeline (newItem (fun _ => 0.5) 0%Z) 7 Hlo Hhi)
    as [_ H7].
  split; [apply H4 | apply H7]; vm_compute; reflexivity.
Defined.

(** * The GLTF scene's animator, continued *)

Lemma lt_true : forall a b, a < b -> Js.lt a b = true.
Proof.
  intros a b H. unfold Js.lt. destruct (Qlt_le_dec a b); [reflexivity | lra].
Qed.

Lemma lt_false : forall a b, b <= a -> Js.lt a b = false.
Proof.
  intros a b H. unfold Js.lt. destruct (Qlt_le_dec a b); [lra | reflexivity].
Qed.

Lemma gt_iff : forall a b, Js.gt a b = true <-> b < a.
Proof.
  intros a b. unfold Js.gt. destruct (Qlt_le_dec b a); split; intros H;
    try reflexivity; try assumption; try discriminate; lra.
Qed.

Lemma showHide_zone : forall data x takaGroup compGroup rest,
  -0.5 <= x -> x <= 0.5 ->
  GltfScene.showHide data x (takaGroup :: compGroup :: rest) =
  Normal
    (withVisible (withScale takaGroup (Qmax 0 (1 - (x + 0.5) * 2)))
       (Js.gt (Qmax 0 (1 - (x + 0.5) * 2)) 0.01)
     :: (if Js.gt x 0
         then withVisible
                (withScale compGroup
                   (Qmin 1 (x * 2) * GltfScene.scaleVar data)) true
         else withVisible compGroup false)
     :: rest).
Proof.
  intros data x takaGroup compGroup rest Hl Hr. unfold GltfScene.showHide.
  rewrite lt_false by exact Hl. rewrite gt_false by exact Hr.
  cbv zeta. unfold Js.Math_max, Js.Math_min.
  destruct (Js.gt x 0); reflexivity.
Qed.

Lemma zone_token_visible : forall x,
  Js.gt (Qmax 0 (1 - (x + 0.5) * 2)) 0.01 = true <-> x < -0.005.
Proof.
  intros x. rewrite gt_iff.
  destruct (Q.max_spec 0 (1 - (x + 0.5) * 2)) as [[H E]|[H E]];
    rewrite E; split; intros; lra.
Qed.

(** X12.  Which representation the GLTF scene shows depends on the
    position alone: after the scale and visibility step the token child
    is visible exactly when x < -0.005 and the component child exactly
    when x > 0, so the two are never visible together and for
    -0.005 <= x <= 0 neither is. *)
Theorem gltf_visibility_by_position :
  forall data x takaGroup compGroup rest,
  exists takaGroup' compGroup',
    GltfScene.showHide data x (takaGroup :: compGroup :: rest)
    = Normal (takaGroup' :: compGroup' :: rest)
    /\ (visible takaGroup' = true <-> x < -0.005)
    /\ (visible compGroup' = true <-> 0 < x)
    /\ ~ (visible takaGroup' = true /\ visible compGroup' = true)
    /\ (-0.005 <= x -> x <= 0 ->
        visible takaGroup' = false /\ visible compGroup' = false).
Proof.
  intros data x takaGroup compGroup rest.
  assert (Hgoal : exists takaGroup' compGroup',
    GltfScene.showHide data x (takaGroup :: compGroup :: rest)
    = Normal (takaGroup' :: compGroup' :: rest)
    /\ (visible takaGroup' = true <-> x < -0.005)
    /\ (visible compGroup' = true <-> 0 < x)).
  { destruct (Qlt_le_dec x (-0.5)) as [Hl|Hl].
    - eexists. eexists. split; [apply showHide_left; exact Hl|].
      cbn [visible withScale withVisible].
      split; split; intros; try reflexivity; try discriminate; lra.
    - destruct (Qlt_le_dec 0.5 x) as [Hr|Hr].
      + eexists. eexists. split; [apply showHide_right; exact Hr|].
        cbn [visible withScale withVisible].
        split; split; intros; try reflexivity; try discriminate; lra.
      + eexists. eexists. split; [apply showHide_zone; assumption|].
        split.
        * cbn [visible withVisible]. apply zone_token_visible.
        * destruct (Js.gt x 0) eqn:Hx; cbn [visible withVisible withScale].
          -- apply gt_iff in Hx. split; intros; [exact Hx | reflexivity].
          -- split; intros H; [discriminate|].
             apply gt_iff in H. congruence. }
  destruct Hgoal as [takaGroup' [compGroup' [E [Ht Hc]]]].
  exists takaGroup', compGroup'. split; [exact E|].
  split; [exact Ht|]. split; [exact Hc|]. split.
  - intros [H1 H2]. apply Ht in H1. apply Hc in H2. lra.
  - intros Hlo Hhi. split.
    + destruct (visible takaGroup'); [|reflexivity].
      assert (x < -0.005) by (apply Ht; reflexivity). lra.
    + destruct (visible compGroup'); [|reflexivity].
      assert (0 < x) by (apply Hc; reflexivity). lra.
Qed.

(** X13.  The component scale of the GLTF scene is not monotone in the
    position: at x = 0.5, the end of the zone, it has reached
    [scaleVar], and right after it restarts from 0, being
    [(x - 0.5) * 2 * scaleVar] for 0.5 < x < 1. *)
Theorem gltf_component_scale_restarts :
  forall data x takaGroup compGroup rest,
  0.5 < x -> x < 1 -> 0 < GltfScene.scaleVar data ->
  exists takaEnd compEnd takaAfter compAfter scaleEnd scaleAfter,
    GltfScene.showHide data 0.5 (takaGroup :: compGroup :: rest)
    = Normal (takaEnd :: compEnd :: rest)
    /\ scale compEnd = setScalar scaleEnd
    /\ scaleEnd == GltfScene.scaleVar data
    /\ GltfScene.showHide data x (takaGroup :: compGroup :: rest)
       = Normal (takaAfter :: compAfter :: rest)
    /\ scale compAfter = setScalar scaleAfter
    /\ scaleAfter == (x - 0.5) * 2 * GltfScene.scaleVar data
    /\ scaleAfter < scaleEnd.
Proof.
  intros data x takaGroup compGroup rest Hl Hr Hs.
  assert (E1 : Qmin 1 (0.5 * 2) * GltfScene.scaleVar data
               == GltfScene.scaleVar data).
  { destruct (Q.min_spec 1 (0.5 * 2)) as [[_ E]|[_ E]]; rewrite E; ring. }
  assert (E2 : Qmin 1 ((x - 0.5) * 2) * GltfScene.scaleVar data
               == (x - 0.5) * 2 * GltfScene.scaleVar data).
  { destruct (Q.min_spec 1 ((x - 0.5) * 2)) as [[H E]|[H E]]; rewrite E;
      [lra | reflexivity]. }
  do 4 eexists.
  exists (Qmin 1 (0.5 * 2) * GltfScene.scaleVar data).
  exists (Qmin 1 ((x - 0.5) * 2) * GltfScene.scaleVar data).
  split; [rewrite showHide_zone by lra; reflexivity|].
  split; [reflexivity|]. split; [exact E1|].
  split; [apply showHide_right; exact Hl|].
  split; [reflexivity|]. split; [exact E2|].
  rewrite E1, E2.
  assert ((x - 0.5) * 2 * GltfScene.scaleVar data
          < 1 * GltfScene.scaleVar data)
    by (apply Qmult_lt_compat_r; lra).
  lra.
Qed.

Lemma gltf_component_scale_restarts_witness :
  let data := GltfScene.newItem (fun _ => 0.5) 0%Z in
  (0.5 < 0.6 /\ 0.6 < 1 /\ 0 < GltfScene.scaleVar data)
  /\ exists takaEnd compEnd takaAfter compAfter scaleEnd scaleAfter,
       GltfScene.showHide data 0.5
         [mkObject3D (setScalar 1) true; mkObject3D (setScalar 1) false]
       = Normal [takaEnd; compEnd]
       /\ scale compEnd = setScalar scaleEnd
       /\ GltfScene.showHide data 0.6
            [mkObject3D (setScalar 1) true; mkObject3D (setScalar 1) false]
          = Normal [takaAfter; compAfter]
       /\ scale compAfter = setScalar scaleAfter
       /\ scaleAfter < scaleEnd.
Proof.
  cbv zeta.
  assert (H1 : 0.5 < 0.6) by lra. assert (H2 : 0.6 < 1) by lra.
  assert (H3 : 0 < GltfScene.scaleVar (GltfScene.newItem (fun _ => 0.5) 0%Z))
    by (vm_compute; reflexivity).
  split; [repeat split; assumption|].
  destruct (gltf_component_scale_restarts
              (GltfScene.newItem (fun _ => 0.5) 0%Z) 0.6
              (mkObject3D (setScalar 1) true)
              (mkObject3D (setScalar 1) false) [] H1 H2 H3)
    as [tE [cE [tA [cA [sE [sA [E1 [S1 [_ [E2 [S2 [_ Hlt]]]]]]]]]]]].
  exists tE, cE, tA, cA, sE, sA. repeat split; assumption.
Defined.

Lemma gltf_animate_mounted_eq :
  forall Math_sin Math_cos data elapsedTime a g,
  GltfScene.groupRef a = Some g ->
  let timeAlive := elapsedTime - GltfScene.birthTime a elapsedTime in
  let x := GltfScene.horizontal data timeAlive in
  GltfScene.animate Math_sin Math_cos data elapsedTime a =
  Js.bind (GltfScene.showHide data x (children g)) (fun children' =>
    Normal
      {| GltfScene.startTime := Some (GltfScene.birthTime a elapsedTime);
         GltfScene.groupRef :=
           Some {| position :=
                     {| x := x;
                        y := GltfScene.initialY data
                             + Math_sin (timeAlive * 0.5
                                         + inject_Z (GltfScene.id data))
                               * 0.3;
                        z := GltfScene.initialZ data
                             + Math_cos (timeAlive * 0.3
                                         + inject_Z (GltfScene.id data))
                               * 0.3 |};
                   rotation :=
                     {| x := Three.x (rotation g)
                             + Three.x (GltfScene.rotationSpeed data);
                        y := Three.y (rotation g)
                             + Three.y (GltfScene.rotationSpeed data);
                        z := Three.z (rotation g)
                             + Three.z (GltfScene.rotationSpeed data) |};
                   children := children' |};
         GltfScene.transformed :=
           if Js.gt x 0 && negb (GltfScene.transformed a)
           then true else GltfScene.transformed a |}).
Proof.
  intros Math_sin Math_cos data elapsedTime a g H. unfold GltfScene.animate.
  rewrite H. reflexivity.
Qed.

Lemma showHide_returns : forall data x takaGroup compGroup rest,
  exists takaGroup' compGroup',
    GltfScene.showHide data x (takaGroup :: compGroup :: rest)
    = Normal (takaGroup' :: compGroup' :: rest).
Proof.
  intros data x takaGroup compGroup rest. unfold GltfScene.showHide.
  destruct (Js.lt x (-0.5)); [eexists; eexists; reflexivity|].
  destruct (Js.gt x 0.5); [eexists; eexists; reflexivity|].
  cbv zeta. destruct (Js.gt x 0); eexists; eexists; reflexivity.
Qed.

Lemma showHide_few : forall data x children,
  (length children < 2)%nat -> GltfScene.showHide data x children = Throw.
Proof.
  intros data x [|takaGroup [|compGroup rest]] H; try reflexivity.
  simpl in H. lia.
Qed.

(** X14.  [transformed] is a latch: a frame on a mounted group with its
    two children sets it when the item is right of the beam (x > 0) and
    never clears it. *)
Theorem gltf_transformed_latch :
  forall Math_sin Math_cos data elapsedTime a g takaGroup compGroup rest,
  GltfScene.groupRef a = Some g ->
  children g = takaGroup :: compGroup :: rest ->
  exists a',
    GltfScene.animate Math_sin Math_cos data elapsedTime a = Normal a'
    /\ GltfScene.transformed a' =
       (GltfScene.transformed a
        || Js.gt (GltfScene.horizontal data
                    (elapsedTime - GltfScene.birthTime a elapsedTime)) 0)
    /\ (GltfScene.transformed a = true -> GltfScene.transformed a' = true)
    /\ (GltfScene.transformed a' = true ->
        GltfScene.transformed a = true
        \/ 0 < GltfScene.horizontal data
                 (elapsedTime - GltfScene.birthTime a elapsedTime)).
Proof.
  intros Math_sin Math_cos data elapsedTime a g takaGroup compGroup rest
    Hg Hc.
  pose proof (gltf_animate_mounted_eq Math_sin Math_cos data elapsedTime
                a g Hg) as E. cbv zeta in E.
  set (x := GltfScene.horizontal data _) in *.
  destruct (showHide_returns data x takaGroup compGroup rest)
    as [t' [c' Es]].
  rewrite Hc, Es in E. cbn [Js.bind] in E.
  eexists. split; [exact E|]. cbn [GltfScene.transformed].
  destruct (GltfScene.transformed a), (Js.gt x 0) eqn:Hx;
    cbn [andb negb orb];
    (split; [reflexivity|]); (split; [intros; congruence|]); intros H;
    try (left; reflexivity); try discriminate.
  right. apply gt_iff. exact Hx.
Qed.

Lemma gltf_transformed_latch_witness :
  let data := GltfScene.newItem (fun _ => 0) 0%Z in
  let a := {| GltfScene.startTime := Some 0;
              GltfScene.groupRef := Some mountedGroup;
              GltfScene.transformed := false |} in
  GltfScene.groupRef a = Some mountedGroup
  /\ exists a',
       GltfScene.animate (fun _ => 0) (fun _ => 0) data 11 a = Normal a'
       /\ GltfScene.transformed a' = true.
Proof.
  cbv zeta. split; [reflexivity|].
  destruct (gltf_transformed_latch (fun _ => 0) (fun _ => 0)
              (GltfScene.newItem (fun _ => 0) 0%Z) 11
              {| GltfScene.startTime := Some 0;
                 GltfScene.groupRef := Some mountedGroup;
                 GltfScene.transformed := false |}
              mountedGroup
              (mkObject3D (setScalar 1) true)
              (mkObject3D (setScalar 0.001) true)
              [] eq_refl eq_refl)
    as [a' [E [Ht _]]].
  exists a'. split; [exact E|]. rewrite Ht. vm_compute. reflexivity.
Defined.

(** X15.  Unlike the glowing scene, the GLTF scene's animator writes to
    its two children without a test: on a mounted group with fewer than
    two children every frame throws, whatever the clock and the item. *)
Theorem gltf_missing_child_throws :
  forall Math_sin Math_cos data elapsedTime a g,
  GltfScene.groupRef a = Some g ->
  (length (children g) < 2)%nat ->
  GltfScene.animate Math_sin Math_cos data elapsedTime a = Throw.
Proof.
  intros Math_sin Math_cos data elapsedTime a g Hg Hlen.
  rewrite (gltf_animate_mounted_eq Math_sin Math_cos data elapsedTime
             a g Hg). cbv zeta.
  now rewrite showHide_few by exact Hlen.
Qed.

Lemma gltf_missing_child_throws_witness :
  let lonely := mkGroup (mkVector3 0 0 0) (mkVector3 0 0 0)
                  [mkObject3D (setScalar 1) true] in
  let a := {| GltfScene.startTime := Some 2;
              GltfScene.groupRef := Some lonely;
              GltfScene.transformed := false |} in
  (length (children lonely) < 2)%nat
  /\ GltfScene.animate (fun _ => 0) (fun _ => 0)
       (GltfScene.newItem (fun _ => 0.5) 4%Z) 3 a = Throw.
Proof.
  cbv zeta. split; [simpl; lia|].
  apply (gltf_missing_child_throws (fun _ => 0) (fun _ => 0)
           (GltfScene.newItem (fun _ => 0.5) 4%Z) 3
           {| GltfScene.startTime := Some 2;
              GltfScene.groupRef :=
                Some (mkGroup (mkVector3 0 0 0) (mkVector3 0 0 0)
                        [mkObject3D (setScalar 1) true]);
              GltfScene.transformed := false |}
           (mkGroup (mkVector3 0 0 0) (mkVector3 0 0 0)
              [mkObject3D (setScalar 1) true]) eq_refl).
  simpl. lia.
Defined.

(** Once set, the birth time of a GLTF animator survives every later
    mount and frame of a run that does not throw. *)
Lemma gltf_run_keeps_birth : forall Math_sin Math_cos data evs a a' s,
  GltfScene.startTime a = Some s ->
  GltfScene.run Math_sin Math_cos data evs a = Normal a' ->
  GltfScene.startTime a' = Some s.
Proof.
  intros Math_sin Math_cos data evs.
  induction evs as [|ev evs IH]; intros a a' s Hs Hrun.
  - simpl in Hrun. inversion Hrun; subst. exact Hs.
  - simpl in Hrun. destruct ev as [g|elapsedTime]; simpl in Hrun.
    + eapply IH; [|exact Hrun]. exact Hs.
    + destruct (GltfScene.animate Math_sin Math_cos data elapsedTime a)
        as [a1|] eqn:E1; simpl in Hrun; [|discriminate].
      eapply IH; [|exact Hrun].
      unfold GltfScene.animate in E1.
      destruct (GltfScene.groupRef a) as [g|].
      * cbv zeta in E1.
        destruct (GltfScene.showHide _ _ _) as [cs|]; simpl in E1;
          [|discriminate].
        inversion E1; subst. cbn [GltfScene.startTime].
        unfold GltfScene.birthTime. now rewrite Hs.
      * inversion E1; subst. cbn [GltfScene.startTime].
        unfold GltfScene.birthTime. now rewrite Hs.
Qed.

Lemma gltf_animate_returns :
  forall Math_sin Math_cos data elapsedTime a,
  match GltfScene.groupRef a with
  | None => True
  | Some g => (2 <= length (children g))%nat
  end ->
  exists a',
    GltfScene.animate Math_sin Math_cos data elapsedTime a = Normal a'
    /\ GltfScene.startTime a'
       = Some (GltfScene.birthTime a elapsedTime)
    /\ match GltfScene.groupRef a' with
       | None => True
       | Some g => (2 <= length (children g))%nat
       end.
Proof.
  intros Math_sin Math_cos data elapsedTime a Hwf.
  destruct (GltfScene.groupRef a) as [g|] eqn:Hg.
  - pose proof (gltf_animate_mounted_eq Math_sin Math_cos data elapsedTime
                  a g Hg) as E. cbv zeta in E.
    destruct (children g) as [|takaGroup [|compGroup rest]] eqn:Hc;
      simpl in Hwf; try lia.
    set (x := GltfScene.horizontal data _) in *.
    destruct (showHide_returns data x takaGroup compGroup rest)
      as [t' [c' Es]].
    rewrite Es in E. cbn [Js.bind] in E.
    eexists. split; [exact E|]. split; [reflexivity|].
    cbn [GltfScene.groupRef children length]. lia.
  - eexists. split; [apply gltf_animate_unmounted; exact Hg|].
    split; [reflexivity | exact I].
Qed.

(** X16.  In the GLTF scene too the birth time is fixed by the first
    frame, mounted or not: when every group the renderer mounts has its
    two children, no run of mounts and frames throws, and after a first
    frame at clock [first] the birth time is [first] for good. *)
Theorem gltf_birth_time_set_once :
  forall Math_sin Math_cos data first evs mounted flag,
  match mounted with
  | None => True
  | Some g => (2 <= length (children g))%nat
  end ->
  Forall (fun ev =>
            match ev with
            | GltfScene.Mount g => (2 <= length (children g))%nat
            | GltfScene.Frame _ => True
            end) evs ->
  exists a',
    GltfScene.run Math_sin Math_cos data (GltfScene.Frame first :: evs)
      {| GltfScene.startTime := None;
         GltfScene.groupRef := mounted;
         GltfScene.transformed := flag |} = Normal a'
    /\ GltfScene.startTime a' = Some first.
Proof.
  intros Math_sin Math_cos data first evs mounted flag Hm Hevs.
  assert (Hrun : forall evs a,
    match GltfScene.groupRef a with
    | None => True
    | Some g => (2 <= length (children g))%nat
    end ->
    Forall (fun ev =>
              match ev with
              | GltfScene.Mount g => (2 <= length (children g))%nat
              | GltfScene.Frame _ => True
              end) evs ->
    exists a', GltfScene.run Math_sin Math_cos data evs a = Normal a').
  { clear. induction evs as [|ev evs IH]; intros a Hwf Hall.
    - exists a. reflexivity.
    - inversion Hall as [|? ? Hev Hrest]; subst.
      destruct ev as [g|elapsedTime]; simpl.
      + apply IH; [exact Hev | exact Hrest].
      + destruct (gltf_animate_returns Math_sin Math_cos data elapsedTime
                    a Hwf) as [a1 [E1 [_ Hwf1]]].
        rewrite E1. simpl. apply IH; assumption. }
  destruct (Hrun (GltfScene.Frame first :: evs)
              {| GltfScene.startTime := None;
                 GltfScene.groupRef := mounted;
                 GltfScene.transformed := flag |} Hm
              ltac:(constructor; [exact I | exact Hevs])) as [a' Ea'].
  exists a'. split; [exact Ea'|].
  simpl in Ea'.
  destruct (gltf_animate_returns Math_sin Math_cos data first
              {| GltfScene.startTime := None;
                 GltfScene.groupRef := mounted;
                 GltfScene.transformed := flag |} Hm)
    as [a1 [E1 [Hs1 _]]].
  rewrite E1 in Ea'. simpl in Ea'.
  eapply gltf_run_keeps_birth; [exact Hs1 | exact Ea'].
Qed.

Lemma gltf_birth_time_set_once_witness :
  let data := GltfScene.newItem (fun _ => 0.5) 0%Z in
  let evs := [GltfScene.Frame 3; GltfScene.Mount mountedGroup;
              GltfScene.Frame 4] in
  Forall (fun ev =>
            match ev with
            | GltfScene.Mount g => (2 <= length (children g))%nat
            | GltfScene.Frame _ => True
            end) evs
  /\ exists a',
       GltfScene.run (fun _ => 0) (fun _ => 0) data
         (GltfScene.Frame 2 :: evs) GltfScene.unborn = Normal a'
       /\ GltfScene.startTime a' = Some 2.
Proof.
  cbv zeta.
  assert (Hevs : Forall (fun ev =>
            match ev with
            | GltfScene.Mount g => (2 <= length (children g))%nat
            | GltfScene.Frame _ => True
            end)
          [GltfScene.Frame 3; GltfScene.Mount mountedGroup;
           GltfScene.Frame 4]).
  { repeat constructor. }
  split; [exact Hevs|].
  apply (gltf_birth_time_set_once (fun _ => 0) (fun _ => 0)
           (GltfScene.newItem (fun _ => 0.5) 0%Z) 2 _ None false I Hevs).
Defined.

(** * The ambient primitives *)

(** X17.  With a sine in [-1, 1], a frame of the energy beam sets the
    horizontal scale of the mounted glow mesh to a pulse in [0.8, 1.2]
    and changes nothing else of it; with the mesh not mounted nothing
    happens. *)
Theorem energy_beam_pulse_range : forall Math_sin elapsedTime glow,
  (forall t, -1 <= Math_sin t /\ Math_sin t <= 1) ->
  (exists glow',
     AnimatedComponents.energyBeamFrame Math_sin elapsedTime (Some glow)
     = Some glow'
     /\ 0.8 <= Three.x (scale glow') /\ Three.x (scale glow') <= 1.2
     /\ Three.y (scale glow') = Three.y (scale glow)
     /\ Three.z (scale glow') = Three.z (scale glow)
     /\ visible glow' = visible glow)
  /\ AnimatedComponents.energyBeamFrame Math_sin elapsedTime None = None.
Proof.
  intros Math_sin elapsedTime glow Hsin. split; [|reflexivity].
  eexists. split; [reflexivity|]. cbn [scale visible Three.x Three.y Three.z].
  destruct (Hsin (elapsedTime * 3)) as [Hlo Hhi].
  repeat split; try reflexivity; lra.
Qed.

Lemma energy_beam_pulse_range_witness :
  let wave := fun t : Q => if Qlt_le_dec t 2 then 1 else -1 in
  (forall t, -1 <= wave t /\ wave t <= 1)
  /\ exists glow',
       AnimatedComponents.energyBeamFrame wave 1
         (Some (mkObject3D (setScalar 1) true)) = Some glow'
       /\ 0.8 <= Three.x (scale glow') /\ Three.x (scale glow') <= 1.2.
Proof.
  cbv zeta.
  assert (Hw : forall t : Q,
             -1 <= (if Qlt_le_dec t 2 then 1 else -1)
             /\ (if Qlt_le_dec t 2 then 1 else -1) <= 1).
  { intros t. destruct (Qlt_le_dec t 2); split; lra. }
  split; [exact Hw|].
  destruct (energy_beam_pulse_range
              (fun t : Q => if Qlt_le_dec t 2 then 1 else -1) 1
              (mkObject3D (setScalar 1) true) Hw)
    as [[glow' [E [Hlo [Hhi _]]]] _].
  exists glow'. repeat split; assumption.
Defined.





(** X20.  The glowing RAM and motherboard keep no history: a frame
    overwrites what an earlier frame wrote, and with a sine in [-1, 1]
    the RAM's roll stays in [-0.05, 0.05] and its height within 0.08 of
    the [position] prop, the motherboard's pitch stays in
    [-0.33, -0.27] and its height within 0.06 of the prop. *)
Theorem ram_and_motherboard_sway :
  forall Math_sin position earlier elapsedTime g,
  (forall t, -1 <= Math_sin t /\ Math_sin t <= 1) ->
  (exists g',
     AnimatedComponents.glowingRAMFrame Math_sin position elapsedTime
       (Some g) = Some g'
     /\ AnimatedComponents.glowingRAMFrame Math_sin position elapsedTime
          (AnimatedComponents.glowingRAMFrame Math_sin position earlier
             (Some g)) = Some g'
     /\ -0.05 <= Three.z (rotation g') /\ Three.z (rotation g') <= 0.05
     /\ AnimatedComponents.second position - 0.08
        <= Three.y (Three.position g')
     /\ Three.y (Three.position g')
        <= AnimatedComponents.second position + 0.08)
  /\ (exists g',
     AnimatedComponents.glowingMotherboardFrame Math_sin position
       elapsedTime (Some g) = Some g'
     /\ AnimatedComponents.glowingMotherboardFrame Math_sin position
          elapsedTime
          (AnimatedComponents.glowingMotherboardFrame Math_sin position
             earlier (Some g)) = Some g'
     /\ -0.33 <= Three.x (rotation g') /\ Three.x (rotation g') <= -0.27
     /\ AnimatedComponents.second position - 0.06
        <= Three.y (Three.position g')
     /\ Three.y (Three.position g')
        <= AnimatedComponents.second position + 0.06).
Proof.
  intros Math_sin position earlier elapsedTime g Hsin.
  destruct (Hsin (elapsedTime * 0.5)) as [? ?].
  destruct (Hsin (elapsedTime * 0.7 + 1)) as [? ?].
  destruct (Hsin (elapsedTime * 0.4)) as [? ?].
  destruct (Hsin (elapsedTime * 0.6 + 2)) as [? ?].
  split; eexists; (split; [reflexivity|]); (split; [reflexivity|]);
    cbn [rotation Three.position Three.x Three.y Three.z];
    repeat split; lra.
Qed.

Lemma ram_and_motherboard_sway_witness :
  let wave := fun t : Q => if Qlt_le_dec t 2 then 1 else -1 in
  (forall t, -1 <= wave t /\ wave t <= 1)
  /\ exists g',
       AnimatedComponents.glowingRAMFrame wave (0, 2, 0) 8
         (Some GlowingScene.mountedGroup) = Some g'
       /\ -0.05 <= Three.z (rotation g') /\ Three.z (rotation g') <= 0.05.
Proof.
  cbv zeta.
  assert (Hw : forall t : Q,
             -1 <= (if Qlt_le_dec t 2 then 1 else -1)
             /\ (if Qlt_le_dec t 2 then 1 else -1) <= 1).
  { intros t. destruct (Qlt_le_dec t 2); split; lra. }
  split; [exact Hw|].
  destruct (ram_and_motherboard_sway
              (fun t : Q => if Qlt_le_dec t 2 then 1 else -1)
              (0, 2, 0) 3 8 GlowingScene.mountedGroup Hw)
    as [[g' [E [_ [Hlo [Hhi _]]]]] _].
  exists g'. repeat split; assumption.
Defined.

(** * Ember particles *)

Import EmberParticles.

Lemma length_setAt : forall arr k v, length (setAt arr k v) = length arr.
Proof.
  induction arr as [|a arr IH]; intros [|k] v; simpl; try reflexivity.
  now rewrite IH.
Qed.

Lemma nth_error_setAt_same : forall arr k v,
  (k < length arr)%nat -> nth_error (setAt arr k v) k = Some v.
Proof.
  induction arr as [|a arr IH]; intros [|k] v H; simpl in *; try lia.
  - reflexivity.
  - apply IH. lia.
Qed.

Lemma nth_error_setAt_other : forall arr k v j,
  j <> k -> nth_error (setAt arr k v) j = nth_error arr j.
Proof.
  induction arr as [|a arr IH]; intros [|k] v [|j] H; simpl;
    try reflexivity; try lia.
  apply IH. lia.
Qed.

Lemma length_setTriple : forall arr i a b c,
  length (setTriple arr i a b c) = length arr.
Proof.
  intros. unfold setTriple. now rewrite !length_setAt.
Qed.

Lemma triple_setTriple_same : forall arr i a b c,
  (i * 3 + 2 < length arr)%nat ->
  triple (setTriple arr i a b c) i = Some (a, b, c).
Proof.
  intros arr i a b c H. unfold triple, setTriple.
  rewrite (nth_error_setAt_other _ (i * 3 + 2) c (i * 3)) by lia.
  rewrite (nth_error_setAt_other _ (i * 3 + 1) b (i * 3)) by lia.
  rewrite nth_error_setAt_same by lia.
  rewrite (nth_error_setAt_other _ (i * 3 + 2) c (i * 3 + 1)) by lia.
  rewrite nth_error_setAt_same by (rewrite length_setAt; lia).
  rewrite nth_error_setAt_same by (rewrite !length_setAt; lia).
  reflexivity.
Qed.

Lemma triple_setTriple_other : forall arr i a b c j,
  j <> i -> triple (setTriple arr i a b c) j = triple arr j.
Proof.
  intros arr i a b c j H. unfold triple, setTriple.
  rewrite !nth_error_setAt_other by lia. reflexivity.
Qed.

Lemma triple_defined : forall arr i,
  (i * 3 + 2 < length arr)%nat ->
  exists a b c, triple arr i = Some (a, b, c).
Proof.
  intros arr i H. unfold triple.
  destruct (nth_error arr (i * 3)) as [a|] eqn:Ea;
    [|apply nth_error_None in Ea; lia].
  destruct (nth_error arr (i * 3 + 1)) as [b|] eqn:Eb;
    [|apply nth_error_None in Eb; lia].
  destruct (nth_error arr (i * 3 + 2)) as [c|] eqn:Ec;
    [|apply nth_error_None in Ec; lia].
  now exists a, b, c.
Qed.

Lemma triple_app_old : forall arr more i,
  (i * 3 + 2 < length arr)%nat -> triple (arr ++ more) i = triple arr i.
Proof.
  intros arr more i H. unfold triple.
  rewrite !nth_error_app1 by lia. reflexivity.
Qed.

Lemma triple_app_new : forall arr i a b c,
  length arr = (i * 3)%nat -> triple (arr ++ [a; b; c]) i = Some (a, b, c).
Proof.
  intros arr i a b c H. unfold triple.
  rewrite !nth_error_app2 by lia. rewrite <- H.
  replace (length arr - length arr)%nat with 0%nat by lia.
  replace (length arr + 1 - length arr)%nat with 1%nat by lia.
  replace (length arr + 2 - length arr)%nat with 2%nat by lia.
  reflexivity.
Qed.

(** The state of the initialiser's loop after its first [m] rounds. *)
Lemma init_loop : forall fround random count k m,
  (m <= count)%nat ->
  exists positions velocities,
    fold_left (initStep fround random) (seq 0 m)
      (repeat 0 (count * 3), [], k)
    = (positions, velocities, (k + 6 * m)%nat)
    /\ length positions = (count * 3)%nat
    /\ length velocities = (m * 3)%nat
    /\ forall i, (i < m)%nat ->
       triple positions i =
         Some (fround ((random (k + 6 * i)%nat - 0.5) * 0.5),
               fround ((random (k + 6 * i + 1)%nat - 0.5) * 4),
               fround ((random (k + 6 * i + 2)%nat - 0.5) * 0.5))
       /\ triple velocities i =
         Some ((random (k + 6 * i + 3)%nat - 0.5) * 0.02,
               random (k + 6 * i + 4)%nat * 0.03 + 0.01,
               (random (k + 6 * i + 5)%nat - 0.5) * 0.02).
Proof.
  intros fround random count k m. induction m as [|m IH]; intros Hm.
  - exists (repeat 0 (count * 3)), []. simpl.
    rewrite repeat_length. replace (k + 0)%nat with k by lia.
    split; [reflexivity|]. split; [reflexivity|]. split; [reflexivity|].
    intros i Hi. lia.
  - destruct IH as [pos [vel [E [Hlp [Hlv Hall]]]]]; [lia|].
    rewrite seq_S, fold_left_app, E. cbn [fold_left Nat.add initStep].
    exists (setTriple pos m
              (fround ((random (k + 6 * m)%nat - 0.5) * 0.5))
              (fround ((random (k + 6 * m + 1)%nat - 0.5) * 4))
              (fround ((random (k + 6 * m + 2)%nat - 0.5) * 0.5))).
    exists (vel ++ [(random (k + 6 * m + 3)%nat - 0.5) * 0.02;
                    random (k + 6 * m + 4)%nat * 0.03 + 0.01;
                    (random (k + 6 * m + 5)%nat - 0.5) * 0.02]).
    split; [unfold setTriple; f_equal; lia|].
    split; [rewrite length_setTriple; exact Hlp|].
    split; [rewrite length_app, Hlv; simpl; lia|].
    intros i Hi.
    assert (Hcase : (i < m)%nat \/ i = m) by lia.
    destruct Hcase as [Hlt| ->].
    + destruct (Hall i Hlt) as [Hp Hv]. split.
      * rewrite <- Hp. apply triple_setTriple_other. lia.
      * rewrite <- Hv. apply triple_app_old. lia.
    + split.
      * apply triple_setTriple_same. lia.
      * apply triple_app_new. exact Hlv.
Qed.

Lemma ember_init_layout_aux : forall fround random count k,
  length (positions (fst (init fround random count k))) = (count * 3)%nat
  /\ length (velocities (fst (init fround random count k)))
     = (count * 3)%nat.
Proof.
  intros fround random count k.
  destruct (init_loop fround random count k count (Nat.le_refl count))
    as [pos [vel [E [Hlp [Hlv _]]]]].
  unfold init. rewrite E. split; assumption.
Qed.

(** X21.  The initialiser returns [count] particles in two flat arrays
    of [count * 3] cells each, built from [6 * count] draws: particle
    [i] takes its position from draws [6i .. 6i+2] and its velocity from
    draws [6i+3 .. 6i+5]. *)
Theorem ember_init_layout : forall fround random count k,
  exists e,
    init fround random count k = (e, (k + 6 * count)%nat)
    /\ length (positions e) = (count * 3)%nat
    /\ length (velocities e) = (count * 3)%nat
    /\ needsUpdate e = false
    /\ forall i, (i < count)%nat ->
       triple (positions e) i =
         Some (fround ((random (k + 6 * i)%nat - 0.5) * 0.5),
               fround ((random (k + 6 * i + 1)%nat - 0.5) * 4),
               fround ((random (k + 6 * i + 2)%nat - 0.5) * 0.5))
       /\ triple (velocities e) i =
         Some ((random (k + 6 * i + 3)%nat - 0.5) * 0.02,
               random (k + 6 * i + 4)%nat * 0.03 + 0.01,
               (random (k + 6 * i + 5)%nat - 0.5) * 0.02).
Proof.
  intros fround random count k.
  destruct (init_loop fround random count k count (Nat.le_refl count))
    as [pos [vel [E [Hlp [Hlv Hall]]]]].
  exists (mkEmbers pos vel false). unfold init. rewrite E.
  split; [reflexivity|]. cbn [positions velocities needsUpdate].
  split; [exact Hlp|]. split; [exact Hlv|]. split; [reflexivity|].
  exact Hall.
Qed.

(** One iteration of the frame loop on a particle that exists. *)
Lemma frameStep_outcome : forall fround random vel pos k i,
  (i * 3 + 2 < length pos)%nat ->
  (i * 3 + 2 < length vel)%nat ->
  exists p v pos' k',
    triple pos i = Some p
    /\ triple vel i = Some v
    /\ frameStep fround random vel (Some (pos, k)) i = Some (pos', k')
    /\ length pos' = length pos
    /\ (forall j, j <> i -> triple pos' j = triple pos j)
    /\ ((leftRegion (moved fround p v)
         /\ k' = (k + 3)%nat
         /\ triple pos' i = Some (respawned fround random k))
        \/ (~ leftRegion (moved fround p v)
            /\ k' = k
            /\ triple pos' i = Some (moved fround p v))).
Proof.
  intros fround random vel pos k i Hp Hv.
  destruct (triple_defined pos i Hp) as [px [py [pz Ep]]].
  destruct (triple_defined vel i Hv) as [vx [vy [vz Ev]]].
  exists (px, py, pz), (vx, vy, vz).
  unfold frameStep. rewrite Ep, Ev. cbv zeta.
  set (x' := fround (px + vx)). set (y' := fround (py + vy)).
  set (z' := fround (pz + vz)).
  destruct (Js.gt y' 3 || Js.gt (Qabs x') 2) eqn:Hreset.
  - eexists. eexists. split; [reflexivity|]. split; [reflexivity|].
    split; [reflexivity|].
    split; [now rewrite !length_setTriple|].
    split; [intros j Hj; now rewrite !triple_setTriple_other by exact Hj|].
    left. split.
    + cbn [moved leftRegion]. fold x' y'.
      apply orb_true_iff in Hreset.
      destruct Hreset as [H|H]; apply gt_iff in H; [left | right]; exact H.
    + split; [reflexivity|].
      apply triple_setTriple_same. now rewrite length_setTriple.
  - eexists. eexists. split; [reflexivity|]. split; [reflexivity|].
    split; [reflexivity|].
    split; [now rewrite length_setTriple|].
    split; [intros j Hj; now rewrite triple_setTriple_other by exact Hj|].
    right. split.
    + cbn [moved leftRegion]. fold x' y'.
      apply orb_false_iff in Hreset. destruct Hreset as [H1 H2].
      intros [H|H]; apply gt_iff in H; congruence.
    + split; [reflexivity|].
      apply triple_setTriple_same. exact Hp.
Qed.

(** The state of the frame loop after its first [m] rounds. *)
Lemma frame_loop : forall fround random count vel pos k m,
  length pos = (count * 3)%nat ->
  length vel = (count * 3)%nat ->
  (m <= count)%nat ->
  exists pos' k',
    fold_left (frameStep fround random vel) (seq 0 m) (Some (pos, k))
    = Some (pos', k')
    /\ length pos' = (count * 3)%nat
    /\ (k <= k' /\ k' <= k + 3 * m)%nat
    /\ (forall j, (m <= j)%nat -> triple pos' j = triple pos j)
    /\ forall i, (i < m)%nat ->
       exists p v,
         triple pos i = Some p
         /\ triple vel i = Some v
         /\ ((leftRegion (moved fround p v)
              /\ exists j, (k <= j /\ j + 3 <= k')%nat
                 /\ triple pos' i = Some (respawned fround random j))
             \/ (~ leftRegion (moved fround p v)
                 /\ triple pos' i = Some (moved fround p v))).
Proof.
  intros fround random count vel pos k m Hlp Hlv.
  induction m as [|m IH]; intros Hm.
  - exists pos, k. split; [reflexivity|]. split; [exact Hlp|].
    split; [lia|]. split; [reflexivity|]. intros i Hi. lia.
  - destruct IH as [pos1 [k1 [E [Hl1 [Hk1 [Hrest Hdone]]]]]]; [lia|].
    rewrite seq_S, fold_left_app, E. cbn [fold_left Nat.add].
    destruct (frameStep_outcome fround random vel pos1 k1 m)
      as [p [v [pos2 [k2 [Ep [Ev [Es [Hl2 [Hother Hout]]]]]]]]];
      [lia | lia |].
    exists pos2, k2. split; [exact Es|].
    split; [now rewrite Hl2|].
    split; [destruct Hout as [[_ [-> _]]|[_ [-> _]]]; lia|].
    split.
    + intros j Hj. rewrite Hother by lia. apply Hrest. lia.
    + intros i Hi.
      assert (Hcase : (i < m)%nat \/ i = m) by lia.
      destruct Hcase as [Hlt| ->].
      * destruct (Hdone i Hlt) as [p0 [v0 [Ep0 [Ev0 Hout0]]]].
        exists p0, v0. split; [exact Ep0|]. split; [exact Ev0|].
        rewrite Hother by lia.
        destruct Hout0 as [[Hleft [j [Hj Et]]]|[Hin Et]].
        -- left. split; [exact Hleft|]. exists j. split; [|exact Et].
           destruct Hout as [[_ [-> _]]|[_ [-> _]]]; lia.
        -- right. split; assumption.
      * rewrite (Hrest m (Nat.le_refl m)) in Ep.
        exists p, v. split; [exact Ep|]. split; [exact Ev|].
        destruct Hout as [[Hleft [Hk Et]]|[Hin [Hk Et]]].
        -- left. split; [exact Hleft|]. exists k1.
           split; [lia | exact Et].
        -- right. split; assumption.
Qed.

Lemma frame_outcome : forall fround random count e k,
  length (positions e) = (count * 3)%nat ->
  length (velocities e) = (count * 3)%nat ->
  exists e' k',
    frame fround random count true e k = Some (e', k')
    /\ length (positions e') = (count * 3)%nat
    /\ velocities e' = velocities e
    /\ needsUpdate e' = true
    /\ (k <= k' /\ k' <= k + 3 * count)%nat
    /\ forall i, (i < count)%nat ->
       exists p v,
         triple (positions e) i = Some p
         /\ triple (velocities e) i = Some v
         /\ ((leftRegion (moved fround p v)
              /\ exists j, (k <= j /\ j + 3 <= k')%nat
                 /\ triple (positions e') i
                    = Some (respawned fround random j))
             \/ (~ leftRegion (moved fround p v)
                 /\ triple (positions e') i = Some (moved fround p v))).
Proof.
  intros fround random count e k Hlp Hlv.
  destruct (frame_loop fround random count (velocities e) (positions e)
              k count Hlp Hlv (Nat.le_refl count))
    as [pos' [k' [E [Hl [Hk [_ Hdone]]]]]].
  exists (mkEmbers pos' (velocities e) true), k'.
  unfold frame. rewrite E. split; [reflexivity|].
  cbn [positions velocities needsUpdate].
  split; [exact Hl|]. split; [reflexivity|]. split; [reflexivity|].
  split; [exact Hk | exact Hdone].
Qed.

(** X22.  A frame on mounted particles whose two arrays have
    [count * 3] cells returns, keeps the velocities and the array
    length, raises [needsUpdate], and treats every particle on its own:
    the particle either moves by its velocity and is still inside the
    region (height at most 3, at most 2 from the beam), or it left the
    region and is put back using three fresh draws; at most [3 * count]
    draws are made.  Without the mounted ref nothing changes. *)
Theorem ember_frame_outcome : forall fround random count e k,
  length (positions e) = (count * 3)%nat ->
  length (velocities e) = (count * 3)%nat ->
  (exists e' k',
    frame fround random count true e k = Some (e', k')
    /\ length (positions e') = (count * 3)%nat
    /\ velocities e' = velocities e
    /\ needsUpdate e' = true
    /\ (k <= k' /\ k' <= k + 3 * count)%nat
    /\ forall i, (i < count)%nat ->
       exists p v,
         triple (positions e) i = Some p
         /\ triple (velocities e) i = Some v
         /\ ((leftRegion (moved fround p v)
              /\ exists j, (k <= j /\ j + 3 <= k')%nat
                 /\ triple (positions e') i
                    = Some (respawned fround random j))
             \/ (~ leftRegion (moved fround p v)
                 /\ triple (positions e') i = Some (moved fround p v))))
  /\ frame fround random count false e k = Some (e, k).
Proof.
  intros fround random count e k Hlp Hlv.
  split; [now apply frame_outcome | reflexivity].
Qed.

Lemma float32_like_exact : float32_like (fun q => q).
Proof.
  split; [intros a b H; exact H | intros n _; reflexivity].
Qed.

Lemma ember_frame_outcome_witness :
  let random := fun j : nat => if Nat.even j then 0.25 else 0.75 in
  let e := fst (init (fun q => q) random 2 0) in
  (length (positions e) = (2 * 3)%nat
   /\ length (velocities e) = (2 * 3)%nat)
  /\ exists e' k',
       frame (fun q => q) random 2 true e 12 = Some (e', k')
       /\ velocities e' = velocities e
       /\ needsUpdate e' = true.
Proof.
  cbv zeta.
  set (random := fun j : nat => if Nat.even j then 0.25 else 0.75).
  assert (Hlp : length (positions (fst (init (fun q => q) random 2 0)))
                = (2 * 3)%nat) by reflexivity.
  assert (Hlv : length (velocities (fst (init (fun q => q) random 2 0)))
                = (2 * 3)%nat) by reflexivity.
  split; [split; assumption|].
  destruct (ember_frame_outcome (fun q => q) random 2
              (fst (init (fun q => q) random 2 0)) 12 Hlp Hlv)
    as [[e' [k' [E [_ [Hv [Hn _]]]]]] _].
  exists e', k'. repeat split; assumption.
Defined.

Lemma respawned_inBox : forall fround random j arr i,
  float32_like fround ->
  (forall n, 0 <= random n /\ random n < 1) ->
  triple arr i = Some (respawned fround random j) ->
  inBox arr i.
Proof.
  intros fround random j arr i [Hmono Hint] Hr E. unfold inBox.
  do 3 eexists. split; [exact E|].
  destruct (Hr j) as [Hj0 Hj1]. destruct (Hr (j + 1)%nat) as [Hk0 Hk1].
  pose proof (Hint 3%Z ltac:(lia)) as Hi3.
  pose proof (Hint 2%Z ltac:(lia)) as Hi2.
  pose proof (Hint (-2)%Z ltac:(lia)) as Him2.
  change (inject_Z 3) with 3 in Hi3. change (inject_Z 2) with 2 in Hi2.
  change (inject_Z (-2)) with (-2) in Him2.
  split; [rewrite <- Hi3; apply Hmono; lra|].
  split; [rewrite <- Him2 | rewrite <- Hi2]; apply Hmono; lra.
Qed.

Lemma moved_inBox : forall fround p v arr i,
  ~ leftRegion (moved fround p v) ->
  triple arr i = Some (moved fround p v) ->
  inBox arr i.
Proof.
  intros fround [[px py] pz] [[vx vy] vz] arr i Hin E. unfold inBox.
  do 3 eexists. split; [exact E|].
  cbn [moved leftRegion] in Hin.
  assert (Hy : fround (py + vy) <= 3).
  { destruct (Qlt_le_dec 3 (fround (py + vy))); [|assumption].
    exfalso. apply Hin. now left. }
  assert (Hx : Qabs (fround (px + vx)) <= 2).
  { destruct (Qlt_le_dec 2 (Qabs (fround (px + vx)))); [|assumption].
    exfalso. apply Hin. now right. }
  apply Qabs_Qle_condition in Hx. destruct Hx as [Hlo Hhi].
  split; [exact Hy|]. split; assumption.
Qed.

Lemma frame_keeps_region : forall fround random count e k,
  float32_like fround ->
  (forall n, 0 <= random n /\ random n < 1) ->
  length (positions e) = (count * 3)%nat ->
  length (velocities e) = (count * 3)%nat ->
  exists e' k',
    frame fround random count true e k = Some (e', k')
    /\ length (positions e') = (count * 3)%nat
    /\ velocities e' = velocities e
    /\ forall i, (i < count)%nat -> inBox (positions e') i.
Proof.
  intros fround random count e k Hf Hr Hlp Hlv.
  destruct (frame_outcome fround random count e k Hlp Hlv)
    as [e' [k' [E [Hl [Hv [_ [_ Hout]]]]]]].
  exists e', k'. split; [exact E|]. split; [exact Hl|].
  split; [exact Hv|]. intros i Hi.
  destruct (Hout i Hi) as [p [v [_ [_ [[_ [j [_ Et]]]|[Hin Et]]]]]].
  - eapply respawned_inBox; eassumption.
  - eapply moved_inBox; eassumption.
Qed.

(** X23.  Whatever the positions before it, a frame leaves every
    particle inside the region: height at most 3 and at most 2 from the
    beam sideways.  The depth coordinate is not tested. *)
Theorem ember_frame_keeps_region : forall fround random count e k,
  float32_like fround ->
  (forall n, 0 <= random n /\ random n < 1) ->
  length (positions e) = (count * 3)%nat ->
  length (velocities e) = (count * 3)%nat ->
  exists e' k',
    frame fround random count true e k = Some (e', k')
    /\ forall i, (i < count)%nat -> inBox (positions e') i.
Proof.
  intros fround random count e k Hf Hr Hlp Hlv.
  destruct (frame_keeps_region fround random count e k Hf Hr Hlp Hlv)
    as [e' [k' [E [_ [_ Hbox]]]]].
  exists e', k'. split; assumption.
Qed.

Lemma ember_frame_keeps_region_witness :
  let far := mkEmbers [5; 7; 9] [1; 1; 1] false in
  (float32_like (fun q => q)
   /\ (forall n : nat, 0 <= 0.5 /\ 0.5 < 1)
   /\ length (positions far) = (1 * 3)%nat
   /\ length (velocities far) = (1 * 3)%nat)
  /\ exists e' k',
       frame (fun q => q) (fun _ => 0.5) 1 true far 0 = Some (e', k')
       /\ forall i, (i < 1)%nat -> inBox (positions e') i.
Proof.
  cbv zeta.
  assert (Hr : forall n : nat, 0 <= 0.5 /\ 0.5 < 1) by (intros; split; lra).
  split; [repeat split; try reflexivity; try apply float32_like_exact;
          try lra; intros; assumption|].
  apply (ember_frame_keeps_region (fun q => q) (fun _ => 0.5) 1
           (mkEmbers [5; 7; 9] [1; 1; 1] false) 0
           float32_like_exact Hr eq_refl eq_refl).
Defined.

(** The particle above is out of reach before the frame and is put
    back at the beam by it; its depth is reset with it. *)
Example ember_far_particle_reset :
  frame (fun q => q) (fun _ => 0.5) 1 true
    (mkEmbers [5; 7; 9] [1; 1; 1] false) 0
  = Some (mkEmbers [(0.5 - 0.5) * 0.3; (0.5 - 0.5) * 2; (0.5 - 0.5) * 0.3]
            [1; 1; 1] true, 3%nat).
Proof. reflexivity. Qed.

Lemma init_in_region : forall fround random count k,
  float32_like fround ->
  (forall n, 0 <= random n /\ random n < 1) ->
  forall i, (i < count)%nat ->
    inBox (positions (fst (init fround random count k))) i
    /\ exists vx vy vz,
         triple (velocities (fst (init fround random count k))) i
         = Some (vx, vy, vz)
         /\ 0.01 <= vy /\ vy < 0.04.
Proof.
  intros fround random count k [Hmono Hint] Hr i Hi.
  destruct (init_loop fround random count k count (Nat.le_refl count))
    as [pos [vel [E [_ [_ Hall]]]]].
  unfold init. rewrite E. cbn [fst positions velocities].
  destruct (Hall i Hi) as [Ep Ev]. split.
  - unfold inBox. do 3 eexists. split; [exact Ep|].
    destruct (Hr (k + 6 * i)%nat) as [Ha0 Ha1].
    destruct (Hr (k + 6 * i + 1)%nat) as [Hb0 Hb1].
    pose proof (Hint 3%Z ltac:(lia)) as Hi3.
    pose proof (Hint 2%Z ltac:(lia)) as Hi2.
    pose proof (Hint (-2)%Z ltac:(lia)) as Him2.
    change (inject_Z 3) with 3 in Hi3. change (inject_Z 2) with 2 in Hi2.
    change (inject_Z (-2)) with (-2) in Him2.
    split; [rewrite <- Hi3; apply Hmono; lra|].
    split; [rewrite <- Him2 | rewrite <- Hi2]; apply Hmono; lra.
  - do 3 eexists. split; [exact Ev|].
    destruct (Hr (k + 6 * i + 4)%nat) as [Hc0 Hc1]. split; lra.
Qed.

Lemma frames_keep_region : forall fround random count n e k,
  float32_like fround ->
  (forall n, 0 <= random n /\ random n < 1) ->
  length (positions e) = (count * 3)%nat ->
  length (velocities e) = (count * 3)%nat ->
  (forall i, (i < count)%nat -> inBox (positions e) i) ->
  exists e' k',
    frames fround random count n e k = Some (e', k')
    /\ velocities e' = velocities e
    /\ forall i, (i < count)%nat -> inBox (positions e') i.
Proof.
  intros fround random count n. induction n as [|n IH];
    intros e k Hf Hr Hlp Hlv Hbox.
  - exists e, k. split; [reflexivity|]. split; [reflexivity | exact Hbox].
  - destruct (frame_keeps_region fround random count e k Hf Hr Hlp Hlv)
      as [e1 [k1 [E1 [Hl1 [Hv1 Hb1]]]]].
    cbn [frames]. rewrite E1.
    destruct (IH e1 k1 Hf Hr Hl1 (eq_trans (f_equal (@length Q) Hv1) Hlv)
                Hb1) as [e' [k' [E [Hv Hb]]]].
    exists e', k'. split; [exact E|]. split; [congruence | exact Hb].
Qed.

(** X24.  From the initialiser on, after any number of frames, every
    particle is inside the region, and its vertical velocity is the one
    drawn at the start, between 0.01 and 0.04: embers only rise until
    they are put back. *)
Theorem embers_stay_in_region : forall fround random count n k,
  float32_like fround ->
  (forall j, 0 <= random j /\ random j < 1) ->
  exists e' k',
    frames fround random count n
      (fst (init fround random count k)) (snd (init fround random count k))
    = Some (e', k')
    /\ forall i, (i < count)%nat ->
       inBox (positions e') i
       /\ exists vx vy vz,
            triple (velocities e') i = Some (vx, vy, vz)
            /\ 0.01 <= vy /\ vy < 0.04.
Proof.
  intros fround random count n k Hf Hr.
  destruct (ember_init_layout_aux fround random count k)
    as [Hlp Hlv].
  destruct (frames_keep_region fround random count n
              (fst (init fround random count k))
              (snd (init fround random count k)) Hf Hr Hlp Hlv)
    as [e' [k' [E [Hv Hb]]]].
  { intros i Hi. apply (init_in_region fround random count k Hf Hr i Hi). }
  exists e', k'. split; [exact E|]. intros i Hi.
  split; [apply Hb; exact Hi|]. rewrite Hv.
  apply (init_in_region fround random count k Hf Hr i Hi).
Qed.

Lemma embers_stay_in_region_witness :
  (float32_like (fun q => q)
   /\ (forall j : nat, 0 <= 0.5 /\ 0.5 < 1))
  /\ exists e' k',
       frames (fun q => q) (fun _ => 0.5) 2 3
         (fst (init (fun q => q) (fun _ => 0.5) 2 0))
         (snd (init (fun q => q) (fun _ => 0.5) 2 0))
       = Some (e', k')
       /\ forall i, (i < 2)%nat -> inBox (positions e') i.
Proof.
  assert (Hr : forall j : nat, 0 <= 0.5 /\ 0.5 < 1) by (intros; split; lra).
  split; [split; [apply float32_like_exact | exact Hr]|].
  destruct (embers_stay_in_region (fun q => q) (fun _ => 0.5) 2 3 0
              float32_like_exact Hr) as [e' [k' [E Hall]]].
  exists e', k'. split; [exact E|]. intros i Hi. apply Hall. exact Hi.
Defined.

(** * Navigation bar *)

Section NavbarProperties.

Import String.
Local Open Scope string_scope.

(** X25.  For every pathname each nav link carries exactly one bar, the
    underline when the pathname is the link's own href and the hover
    bar otherwise; so at most one link is underlined, and on the home
    page none is and the bar itself is transparent, while on every
    other page it has the dark background. *)
Theorem navbar_active_link : forall pathname,
  let view := Navbar.Navbar pathname in
  (forall link, In link (Navbar.links view) ->
     (pathname = Navbar.href link ->
      Navbar.decorations link = [Navbar.Underline])
     /\ (pathname <> Navbar.href link ->
         Navbar.decorations link = [Navbar.HoverBar]))
  /\ (List.length
        (List.filter
           (fun link => String.eqb pathname (Navbar.href link))
           (Navbar.links view)) <= 1)%nat
  /\ (pathname = "/" ->
      Navbar.navClassName view
      = Navbar.navBase ++ "bg-transparent"
      /\ map Navbar.decorations (Navbar.links view)
         = [[Navbar.HoverBar]; [Navbar.HoverBar]])
  /\ (pathname <> "/" ->
      Navbar.navClassName view
      = Navbar.navBase
        ++ "bg-black/80 backdrop-blur-md border-b border-white/5").
Proof.
  intros pathname. cbv zeta. unfold Navbar.Navbar.
  cbn [Navbar.links Navbar.navClassName].
  split; [|split; [|split]].
  - intros link [<-|[<-|[]]]; cbn [Navbar.NavLink Navbar.href
                                    Navbar.decorations];
      (split; intros H;
       [apply String.eqb_eq in H | apply String.eqb_neq in H];
       rewrite H; reflexivity).
  - cbn [List.filter Navbar.NavLink Navbar.href].
    destruct (String.eqb_spec pathname "/build") as [E|E].
    + subst pathname. simpl. lia.
    + destruct (pathname =? "/components"); simpl; lia.
  - intros ->. split; reflexivity.
  - intros H. apply String.eqb_neq in H. rewrite H. reflexivity.
Qed.

Lemma navbar_active_link_witness :
  "/build" <> "/"
  /\ Navbar.navClassName (Navbar.Navbar "/build")
     = Navbar.navBase
       ++ "bg-black/80 backdrop-blur-md border-b border-white/5".
Proof.
  assert (H : "/build" <> "/") by discriminate.
  split; [exact H|].
  apply (navbar_active_link "/build"). exact H.
Defined.

End NavbarProperties.
